(** * WebCrawler: a shallow embedding of [crawler.py]

    The breadth-first crawl driver [WebCrawler.crawl_website], its URL
    filter [is_valid_url] and its link extractor [extract_links], with the
    attributes of the Python object as a record and the effects of a crawl
    (progress callbacks, page fetches, pacing sleeps) as a trace.

    Python sets are finite sets ([gset string]), the [deque] is a list with
    its head on the left, and the insertion-ordered [dict] of scraped pages
    is an association list.

    A URL is a [string] of bytes, the UTF-8 encoding of the Python [str]:
    the tests of [is_valid_url] and the splitting of [urlparse] look for
    ASCII text only and so read the same on bytes as on characters.  What
    the libraries do with characters outside ASCII ([str.lower], the
    checks of [urlsplit] on the network location) is left to parameters.
    A URL that [urlparse] or [urljoin] rejects raises [ValueError], which
    nothing in the crawler catches. *)

From Stdlib Require Import ZArith QArith Qminmax Ascii String.
From stdpp Require Import gmap strings list.

Local Open Scope string_scope.
Local Open Scope list_scope.
#[local] Set Warnings "-clear-no-such-hyp".

(** ** Strings *)

Module Str.

Definition startswith (s p : string) : bool := String.prefix p s.

Definition endswith (s suf : string) : bool :=
  let n := String.length s in
  let m := String.length suf in
  (m <=? n)%nat && String.eqb (String.substring (n - m) m s) suf.

(** [needle in hay] *)
Fixpoint contains (needle hay : string) : bool :=
  String.prefix needle hay ||
  match hay with
  | EmptyString => false
  | String _ t => contains needle t
  end.

Definition lower_ascii (a : ascii) : ascii :=
  let n := nat_of_ascii a in
  if (65 <=? n)%nat && (n <=? 90)%nat then ascii_of_nat (n + 32) else a.

(** [str.lower] on ASCII text *)
Fixpoint lower (s : string) : string :=
  match s with
  | EmptyString => EmptyString
  | String a t => String (lower_ascii a) (lower t)
  end.

(** [c in s] for a character [c] *)
Fixpoint has (c : ascii) (s : string) : bool :=
  match s with
  | EmptyString => false
  | String a t => Ascii.eqb c a || has c t
  end.

(** [str.isascii] *)
Fixpoint isascii (s : string) : bool :=
  match s with
  | EmptyString => true
  | String a t => (nat_of_ascii a <? 128)%nat && isascii t
  end.

End Str.

(** ** [urllib.parse.urlparse(url).netloc]

    The network-location component as [urlsplit] computes it: leading
    control characters and spaces are stripped, tab and newline characters
    removed, a leading scheme is split off at the first colon when the text
    before it starts with a letter and consists of scheme characters, and
    when what remains starts with two slashes the netloc runs up to the
    first slash, question mark or hash (CPython 3.12).  [urlsplit] then
    checks the netloc and raises [ValueError] when it has an opening
    square bracket and no closing one or the reverse ([unbalanced]); its
    further checks are in [get_domain] below. *)

Module Url.

Definition is_alpha (a : ascii) : bool :=
  let n := nat_of_ascii a in
  ((65 <=? n) && (n <=? 90) || (97 <=? n) && (n <=? 122))%nat.

Definition is_digit (a : ascii) : bool :=
  let n := nat_of_ascii a in ((48 <=? n) && (n <=? 57))%nat.

(** [scheme_chars]: letters, digits and [+-.] *)
Definition is_scheme_char (a : ascii) : bool :=
  is_alpha a || is_digit a ||
  Ascii.eqb a "+" || Ascii.eqb a "-" || Ascii.eqb a ".".

Fixpoint lstrip_c0 (s : string) : string :=
  match s with
  | EmptyString => EmptyString
  | String a t => if (nat_of_ascii a <=? 32)%nat then lstrip_c0 t else s
  end.

Fixpoint remove_unsafe (s : string) : string :=
  match s with
  | EmptyString => EmptyString
  | String a t =>
      let n := nat_of_ascii a in
      if ((n =? 9) || (n =? 10) || (n =? 13))%nat then remove_unsafe t
      else String a (remove_unsafe t)
  end.

(** the text after the first colon, when every character before it is a
    scheme character *)
Fixpoint after_scheme (s : string) : option string :=
  match s with
  | EmptyString => None
  | String a t =>
      if Ascii.eqb a ":" then Some t
      else if is_scheme_char a then after_scheme t
      else None
  end.

Definition strip_scheme (url : string) : string :=
  match url with
  | EmptyString => url
  | String a _ =>
      if is_alpha a then
        match after_scheme url with
        | Some rest => rest
        | None => url
        end
      else url
  end.

(** [_splitnetloc]: up to the first of [/?#] *)
Fixpoint splitnetloc (s : string) : string :=
  match s with
  | EmptyString => EmptyString
  | String a t =>
      if Ascii.eqb a "/" || Ascii.eqb a "?" || Ascii.eqb a "#"
      then EmptyString
      else String a (splitnetloc t)
  end.

Definition netloc (url : string) : string :=
  match strip_scheme (remove_unsafe (lstrip_c0 url)) with
  | String "/" (String "/" rest) => splitnetloc rest
  | _ => EmptyString
  end.

(** one of the two square brackets is in the netloc and the other is not *)
Definition unbalanced (netloc : string) : bool :=
  xorb (Str.has "[" netloc) (Str.has "]" netloc).

(** The netlocs on which [urlsplit] makes no further check: ASCII text
    without square brackets. *)
Definition plain (netloc : string) : bool :=
  Str.isascii netloc && negb (Str.has "[" netloc) && negb (Str.has "]" netloc).

(** *** URLs written out

    [absolute scheme authority rest] is [scheme://authority] followed by
    [rest], for a scheme that starts with a letter and goes on with
    letters, digits and [+-.], an authority without slash, question mark,
    hash, tab, newline or carriage return, and a rest that is empty or
    starts with a slash, a question mark or a hash. *)

Definition absolute (scheme authority rest : string) : string :=
  String.append scheme (String.append "://" (String.append authority rest)).

Fixpoint all_chars (p : ascii → bool) (s : string) : bool :=
  match s with
  | EmptyString => true
  | String a t => p a && all_chars p t
  end.

Definition is_delimiter (a : ascii) : bool :=
  Ascii.eqb a "/" || Ascii.eqb a "?" || Ascii.eqb a "#".

Definition is_unsafe (a : ascii) : bool :=
  let n := nat_of_ascii a in ((n =? 9) || (n =? 10) || (n =? 13))%nat.

Definition wf_scheme (scheme : string) : bool :=
  match scheme with
  | EmptyString => false
  | String a _ => is_alpha a && all_chars is_scheme_char scheme
  end.

Definition wf_authority (authority : string) : bool :=
  all_chars (fun a => negb (is_delimiter a) && negb (is_unsafe a)) authority.

Definition wf_rest (rest : string) : bool :=
  match rest with
  | EmptyString => true
  | String a _ => is_delimiter a
  end.

End Url.

(** ** Configuration *)

Definition EXCLUDED_EXTENSIONS : list string :=
  [ ".pdf"; ".doc"; ".docx"; ".xls"; ".xlsx"; ".ppt"; ".pptx";
    ".zip"; ".rar"; ".tar"; ".gz"; ".exe"; ".dmg"; ".pkg";
    ".jpg"; ".jpeg"; ".png"; ".gif"; ".bmp"; ".svg"; ".ico";
    ".mp3"; ".mp4"; ".avi"; ".mov"; ".wmv"; ".flv"; ".webm";
    ".css"; ".js"; ".xml"; ".json" ].

Definition EXCLUDED_URL_KEYWORDS : list string :=
  [ "logout"; "login"; "signin"; "signup"; "register"; "admin";
    "dashboard"; "profile"; "settings"; "cart"; "checkout"; "payment";
    "billing"; "download"; "upload"; "api"; "feed" ].

(** ** The crawler object and its observable effects *)

(** The messages passed to [update_progress]. *)
Inductive message : Type :=
  | MsgStarting                        (* "Starting crawl..." *)
  | MsgScraping                        (* "Scraping page..." *)
  | MsgFound (new_links_count : nat)   (* "Found {n} new links" *)
  | MsgFailed                          (* "Failed to scrape" *)
  | MsgCompleted (pages links : nat).  (* "Crawling completed! ..." *)

Record progress_data : Type := {
  pd_message : message;
  pd_current_url : option string;
  pd_visited_count : nat;
  pd_queue_size : nat;
  pd_total_links_found : nat;
  pd_links_on_current_page : nat;
  pd_max_pages : Z;
  pd_progress_percentage : Q;
}.

(** What a crawl does to the outside: it calls the progress callback,
    fetches a page, sleeps. *)
Inductive event : Type :=
  | Progress (d : progress_data)
  | Fetch (url : string)
  | Sleep (seconds : Z).

(** The attributes of a [WebCrawler]; [progress_callback] records whether a
    callback was given, and [trace] is the history of effects, oldest
    first. *)
Record WebCrawler : Type := {
  max_pages : Z;
  delay : Z;
  same_domain_only : bool;
  visited_urls : gset string;
  scraped_content : list (string * string);
  url_queue : list string;
  found_links : gset string;
  progress_callback : bool;
  trace : list event;
}.

(** [WebCrawler.__init__] *)
Definition init (max_pages delay : Z) (same_domain_only : bool)
    (progress_callback : bool) : WebCrawler :=
  {| max_pages := max_pages;
     delay := delay;
     same_domain_only := same_domain_only;
     visited_urls := ∅;
     scraped_content := [];
     url_queue := [];
     found_links := ∅;
     progress_callback := progress_callback;
     trace := [] |}.

(** ** Attribute updates *)

Definition set_visited_urls (v : gset string) (c : WebCrawler) : WebCrawler :=
  {| max_pages := max_pages c; delay := delay c;
     same_domain_only := same_domain_only c;
     visited_urls := v; scraped_content := scraped_content c;
     url_queue := url_queue c; found_links := found_links c;
     progress_callback := progress_callback c; trace := trace c |}.

Definition set_scraped_content (d : list (string * string)) (c : WebCrawler)
    : WebCrawler :=
  {| max_pages := max_pages c; delay := delay c;
     same_domain_only := same_domain_only c;
     visited_urls := visited_urls c; scraped_content := d;
     url_queue := url_queue c; found_links := found_links c;
     progress_callback := progress_callback c; trace := trace c |}.

Definition set_url_queue (q : list string) (c : WebCrawler) : WebCrawler :=
  {| max_pages := max_pages c; delay := delay c;
     same_domain_only := same_domain_only c;
     visited_urls := visited_urls c; scraped_content := scraped_content c;
     url_queue := q; found_links := found_links c;
     progress_callback := progress_callback c; trace := trace c |}.

Definition set_found_links (f : gset string) (c : WebCrawler) : WebCrawler :=
  {| max_pages := max_pages c; delay := delay c;
     same_domain_only := same_domain_only c;
     visited_urls := visited_urls c; scraped_content := scraped_content c;
     url_queue := url_queue c; found_links := f;
     progress_callback := progress_callback c; trace := trace c |}.

(** an effect is appended to the history *)
Definition emit (e : event) (c : WebCrawler) : WebCrawler :=
  {| max_pages := max_pages c; delay := delay c;
     same_domain_only := same_domain_only c;
     visited_urls := visited_urls c; scraped_content := scraped_content c;
     url_queue := url_queue c; found_links := found_links c;
     progress_callback := progress_callback c; trace := trace c ++ [e] |}.

(** [d[k] = v] on an insertion-ordered dict: an existing key keeps its
    place, a new key goes last. *)
Fixpoint dict_set (k v : string) (d : list (string * string))
    : list (string * string) :=
  match d with
  | [] => [(k, v)]
  | (k', v') :: t =>
      if String.eqb k k' then (k, v) :: t else (k', v') :: dict_set k v t
  end.

(** ** Exceptions *)

Inductive exn : Type := ZeroDivisionError | ValueError.

(** How a method ends: it returns, or an exception leaves it; either way
    the object is in the state the method left it in. *)
Inductive outcome : Type :=
  | Returned (c : WebCrawler)
  | Raised (e : exn) (c : WebCrawler).

Definition bind (o : outcome) (k : WebCrawler → outcome) : outcome :=
  match o with
  | Returned c => k c
  | Raised e c => Raised e c
  end.

Definition final (o : outcome) : WebCrawler :=
  match o with
  | Returned c => c
  | Raised _ c => c
  end.

(** [WebCrawler.update_progress]: without a callback nothing happens; with
    one, the percentage divides by [max_pages].  The percentage, a float
    in Python, is the exact quotient here. *)
Definition update_progress (self : WebCrawler) (msg : message)
    (current_url : option string) (links_found : nat) : outcome :=
  if progress_callback self then
    if (max_pages self =? 0)%Z then Raised ZeroDivisionError self
    else
      let progress_data :=
        {| pd_message := msg;
           pd_current_url := current_url;
           pd_visited_count := size (visited_urls self);
           pd_queue_size := length (url_queue self);
           pd_total_links_found := size (found_links self);
           pd_links_on_current_page := links_found;
           pd_max_pages := max_pages self;
           pd_progress_percentage :=
             Qmin ((inject_Z (Z.of_nat (size (visited_urls self)))
                    / inject_Z (max_pages self)) * inject_Z 100)
                  (inject_Z 100) |} in
      Returned (emit (Progress progress_data) self)
  else Returned self.

(** What the page fetcher [scrape_website] does on a call. *)
Inductive fetch_result : Type :=
  | FetchRaised
  | FetchReturned (html : string).

(** Python truthiness of [html_content]: [None] and the empty string are
    false. *)
Definition truthy (html_content : option string) : bool :=
  match html_content with
  | None => false
  | Some s => negb (String.eqb s "")
  end.

(** A fetch that the driver counts as failed: the fetcher raised, or it
    returned the empty string. *)
Definition failed (r : fetch_result) : bool :=
  match r with
  | FetchRaised => true
  | FetchReturned html => String.eqb html ""
  end.

Section Crawl.

(** The collaborators outside the repository.

    [checknetloc netloc] tells whether a netloc with square brackets or
    with characters outside ASCII passes the checks that [urlsplit] makes
    on the bracketed host and on the NFKC form of the netloc; they depend
    on the version of the library and on Unicode tables.
    [unicode_lower] is [str.lower] on a string with characters outside
    ASCII.  [find_all_a_href html] is the list of [href] values of the
    anchors BeautifulSoup finds in [html], in document order.
    [urljoin base url] is [urllib.parse.urljoin], [None] when it raises
    [ValueError].  [list_of_set] is the order in which Python iterates
    over a set.  [scrape_website] is the page fetcher, whose result may
    depend on everything that happened before the call.  The parser and
    the progress callback are taken to return; the fetcher may raise. *)
Variable checknetloc : string → bool.
Variable unicode_lower : string → string.
Variable find_all_a_href : string → list string.
Variable urljoin : string → string → option string.
Variable list_of_set : gset string → list string.
Variable scrape_website : list event → string → fetch_result.

(** [WebCrawler.get_domain]: [urlparse(url).netloc], or the [ValueError]
    of [urlsplit]. *)
Definition get_domain (url : string) : exn + string :=
  let netloc := Url.netloc url in
  if Url.plain netloc then inr netloc
  else if Url.unbalanced netloc then inl ValueError
  else if checknetloc netloc then inr netloc
  else inl ValueError.

(** [url.lower()] *)
Definition str_lower (url : string) : string :=
  if Str.isascii url then Str.lower url else unicode_lower url.

(** [WebCrawler.is_valid_url] *)
Definition is_valid_url (self : WebCrawler) (url base_domain : string)
    : exn + bool :=
  if String.eqb url ""
     || Str.startswith url "#"
     || Str.startswith url "mailto:"
     || Str.startswith url "tel:"
  then inr false
  else
    let url_lower := str_lower url in
    if existsb (fun ext => Str.endswith url_lower ext) EXCLUDED_EXTENSIONS
    then inr false
    else if existsb (fun keyword => Str.contains keyword url_lower)
              EXCLUDED_URL_KEYWORDS
    then inr false
    else if same_domain_only self
    then
      match get_domain url with
      | inl e => inl e
      | inr domain => inr (String.eqb domain base_domain)
      end
    else inr true.

(** The [for link in soup.find_all("a", href=True)] of [extract_links],
    from the set of links gathered so far; the first [urljoin] or
    [is_valid_url] that raises ends it. *)
Fixpoint collect_links (self : WebCrawler) (base_url base_domain : string)
    (hrefs : list string) (links : gset string) : exn + gset string :=
  match hrefs with
  | [] => inr links
  | href :: hrefs =>
      match urljoin base_url href with
      | None => inl ValueError
      | Some absolute_url =>
          match is_valid_url self absolute_url base_domain with
          | inl e => inl e
          | inr valid =>
              collect_links self base_url base_domain hrefs
                (if valid then links ∪ {[ absolute_url ]} else links)
          end
      end
  end.

(** [WebCrawler.extract_links] *)
Definition extract_links (self : WebCrawler) (html_content base_url : string)
    : exn + list string :=
  match get_domain base_url with
  | inl e => inl e
  | inr base_domain =>
      match collect_links self base_url base_domain
              (find_all_a_href html_content) ∅ with
      | inl e => inl e
      | inr links => inr (list_of_set links)
      end
  end.



(** [WebCrawler.scrape_single_page]: an exception of the fetcher becomes
    [None]. *)
Definition scrape_single_page (self : WebCrawler) (url : string)
    : option string * WebCrawler :=
  match scrape_website (trace self) url with
  | FetchReturned html_content => (Some html_content, emit (Fetch url) self)
  | FetchRaised => (None, emit (Fetch url) self)
  end.

(** The body of [for link in page_links], with the running
    [new_links_count]. *)
Definition offer (st : WebCrawler * nat) (link : string) : WebCrawler * nat :=
  let (self, new_links_count) := st in
  if decide (link ∈ found_links self) then (self, new_links_count)
  else
    let self := set_found_links (found_links self ∪ {[ link ]}) self in
    let new_links_count := S new_links_count in
    if decide ((link ∉ visited_urls self) ∧ (link ∉ url_queue self))
    then (set_url_queue (url_queue self ++ [link]) self, new_links_count)
    else (self, new_links_count).

(** [visited_urls.add(current_url); scraped_content[current_url] = html] *)
Definition mark_visited (current_url html_content : string)
    (self : WebCrawler) : WebCrawler :=
  set_scraped_content
    (dict_set current_url html_content (scraped_content self))
    (set_visited_urls (visited_urls self ∪ {[ current_url ]}) self).

(** The test of the [while]. *)
Definition loop_cond (self : WebCrawler) : bool :=
  negb (bool_decide (url_queue self = []))
  && (Z.of_nat (size (visited_urls self)) <? max_pages self)%Z.

(** One iteration of the [while], entered with [loop_cond] true, so that
    [popleft] finds a URL. *)
Definition loop_body (self : WebCrawler) : outcome :=
  match url_queue self with
  | [] => Returned self
  | current_url :: rest =>
      let self := set_url_queue rest self in
      if decide (current_url ∈ visited_urls self) then Returned self
      else
        bind (update_progress self MsgScraping (Some current_url) 0)
          (fun self =>
        let (html_content, self) := scrape_single_page self current_url in
        if truthy html_content then
          let html := default "" html_content in
          let self := mark_visited current_url html self in
          match extract_links self html current_url with
          | inl e => Raised e self
          | inr page_links =>
              let (self, new_links_count) :=
                fold_left offer page_links (self, 0) in
              bind (update_progress self (MsgFound new_links_count)
                      (Some current_url) (length page_links))
                (fun self =>
              Returned (if (0 <? delay self)%Z
                        then emit (Sleep (delay self)) self else self))
          end
        else update_progress self MsgFailed (Some current_url) 0)
  end.

(** The [while] loop; [None] when the fuel runs out first. *)
Fixpoint while_loop (fuel : nat) (self : WebCrawler) : option outcome :=
  if loop_cond self then
    match fuel with
    | O => None
    | S fuel =>
        match loop_body self with
        | Returned self => while_loop fuel self
        | Raised e self => Some (Raised e self)
        end
    end
  else Some (Returned self).

(** The object after [self.url_queue = deque([start_url])], and after
    [self.found_links.add(start_url)]. *)
Definition queued (self : WebCrawler) (start_url : string) : WebCrawler :=
  set_url_queue [start_url] self.

Definition seeded (self : WebCrawler) (start_url : string) : WebCrawler :=
  let self := queued self start_url in
  set_found_links (found_links self ∪ {[ start_url ]}) self.

(** The lines of [crawl_website] before the loop: the queue is set to the
    start URL alone, [get_domain(start_url)] is called for a value that
    is dropped, and the start URL is added to the found links.  When
    [get_domain] raises, the queue holds the start URL and the found
    links do not. *)
Definition seed (self : WebCrawler) (start_url : string) : outcome :=
  let self := set_url_queue [start_url] self in
  match get_domain start_url with
  | inl e => Raised e self
  | inr _ =>
      Returned (set_found_links (found_links self ∪ {[ start_url ]}) self)
  end.

(** [WebCrawler.crawl_website]; the value returned is [scraped_content]
    of the crawler in a [Returned] outcome. *)
Definition crawl_website (fuel : nat) (self : WebCrawler) (start_url : string)
    : option outcome :=
  match seed self start_url with
  | Raised e self => Some (Raised e self)
  | Returned self =>
      match update_progress self MsgStarting (Some start_url) 0 with
      | Raised e self => Some (Raised e self)
      | Returned self =>
          match while_loop fuel self with
          | None => None
          | Some (Raised e self) => Some (Raised e self)
          | Some (Returned self) =>
              Some (update_progress self
                      (MsgCompleted (size (visited_urls self))
                                    (size (found_links self))) None 0)
          end
      end
  end.

(** *** The states of a session

    [scraping c u rest c1 html]: the turn of the loop from [c] pops [u],
    reports it (leaving the object as [c1]) and fetches a page for it. *)
Definition scraping (c : WebCrawler) (u : string) (rest : list string)
    (c1 : WebCrawler) (html : string) : Prop :=
  url_queue c = u :: rest
  ∧ (u ∉ visited_urls c)
  ∧ update_progress (set_url_queue rest c) MsgScraping (Some u) 0
      = Returned c1
  ∧ scrape_website (trace c1) u = FetchReturned html
  ∧ html ≠ "".

(** [iteration c c'] describes one turn of the [while] from [c] that
    comes back to the test of the loop, by its three paths: the defensive
    skip, the failed fetch, the scraped page. *)
Inductive iteration (c : WebCrawler) : WebCrawler → Prop :=
  | iter_skip u rest :
      url_queue c = u :: rest →
      u ∈ visited_urls c →
      iteration c (set_url_queue rest c)
  | iter_fail u rest c1 c2 :
      url_queue c = u :: rest →
      u ∉ visited_urls c →
      update_progress (set_url_queue rest c) MsgScraping (Some u) 0
        = Returned c1 →
      truthy (scrape_single_page c1 u).1 = false →
      update_progress (emit (Fetch u) c1) MsgFailed (Some u) 0
        = Returned c2 →
      iteration c c2
  | iter_success u rest c1 html links c4 n c5 :
      url_queue c = u :: rest →
      u ∉ visited_urls c →
      update_progress (set_url_queue rest c) MsgScraping (Some u) 0
        = Returned c1 →
      scrape_website (trace c1) u = FetchReturned html →
      html ≠ "" →
      extract_links (mark_visited u html (emit (Fetch u) c1)) html u
        = inr links →
      fold_left offer links (mark_visited u html (emit (Fetch u) c1), 0)
        = (c4, n) →
      update_progress c4 (MsgFound n) (Some u) (length links)
        = Returned c5 →
      iteration c
        (if (0 <? delay c5)%Z then emit (Sleep (delay c5)) c5 else c5).

(** [raising c e c']: the turn of the loop from [c] fetches and stores a
    page, [extract_links] raises [e] on it, and the exception leaves the
    loop with the object as [c']. *)
Definition raising (c : WebCrawler) (e : exn) (c' : WebCrawler) : Prop :=
  ∃ u rest c1 html,
    scraping c u rest c1 html
    ∧ extract_links (mark_visited u html (emit (Fetch u) c1)) html u = inl e
    ∧ c' = mark_visited u html (emit (Fetch u) c1).

(** [reach c c']: the loop, entered at its test in [c], is at its test
    again in [c'] some turns later. *)
Inductive reach (c : WebCrawler) : WebCrawler → Prop :=
  | reach_refl : reach c c
  | reach_step c' c'' :
      reach c c' →
      loop_cond c' = true →
      loop_body c' = Returned c'' →
      reach c c''.

(** The states in which a session started by [crawl_website] on a new
    crawler evaluates the test of its loop: [urlparse] has accepted the
    start URL. *)
Definition loop_head (N d : Z) (sdo cb : bool) (start_url : string)
    (c : WebCrawler) : Prop :=
  (∃ domain, get_domain start_url = inr domain)
  ∧ ∃ cs,
      update_progress (seeded (init N d sdo cb) start_url) MsgStarting
        (Some start_url) 0 = Returned cs
      ∧ reach cs c.

(** The states of the object between the statements of one turn of the
    loop from [c]: after [popleft], after the first callback, after the
    fetch, after [visited_urls.add], after the page is stored (where an
    exception of [extract_links] leaves the object), after each link of
    the page is offered, inside an offer after [found_links.add], after
    the second callback. *)
Inductive within (c : WebCrawler) : WebCrawler → Prop :=
  | in_popleft u rest :
      url_queue c = u :: rest →
      within c (set_url_queue rest c)
  | in_reported u rest c1 :
      url_queue c = u :: rest →
      u ∉ visited_urls c →
      update_progress (set_url_queue rest c) MsgScraping (Some u) 0
        = Returned c1 →
      within c c1
  | in_fetched u rest c1 :
      url_queue c = u :: rest →
      u ∉ visited_urls c →
      update_progress (set_url_queue rest c) MsgScraping (Some u) 0
        = Returned c1 →
      within c (emit (Fetch u) c1)
  | in_add u rest c1 html :
      scraping c u rest c1 html →
      within c
        (set_visited_urls (visited_urls c1 ∪ {[ u ]}) (emit (Fetch u) c1))
  | in_stored u rest c1 html :
      scraping c u rest c1 html →
      within c (mark_visited u html (emit (Fetch u) c1))
  | in_offered u rest c1 html links k :
      scraping c u rest c1 html →
      let c3 := mark_visited u html (emit (Fetch u) c1) in
      extract_links c3 html u = inr links →
      within c (fold_left offer (take k links) (c3, 0)).1
  | in_found u rest c1 html links k link :
      scraping c u rest c1 html →
      let c3 := mark_visited u html (emit (Fetch u) c1) in
      extract_links c3 html u = inr links →
      let ck := (fold_left offer (take k links) (c3, 0)).1 in
      links !! k = Some link →
      link ∉ found_links ck →
      within c (set_found_links (found_links ck ∪ {[ link ]}) ck)
  | in_counted u rest c1 html links c4 n c5 :
      scraping c u rest c1 html →
      let c3 := mark_visited u html (emit (Fetch u) c1) in
      extract_links c3 html u = inr links →
      fold_left offer links (c3, 0) = (c4, n) →
      update_progress c4 (MsgFound n) (Some u) (length links)
        = Returned c5 →
      within c c5.

(** The states of the object between the statements of a session on a
    new crawler: before the first statement, after the queue is assigned,
    after the start URL is added to the found links, at the test of the
    loop, inside a turn of the loop, and when [crawl_website] is left, by
    [return] or by an exception. *)
Inductive point (N d : Z) (sdo cb : bool) (start_url : string)
    : WebCrawler → Prop :=
  | pt_new : point N d sdo cb start_url (init N d sdo cb)
  | pt_queued :
      point N d sdo cb start_url (queued (init N d sdo cb) start_url)
  | pt_seed domain :
      get_domain start_url = inr domain →
      point N d sdo cb start_url (seeded (init N d sdo cb) start_url)
  | pt_head c : loop_head N d sdo cb start_url c → point N d sdo cb start_url c
  | pt_within c p :
      loop_head N d sdo cb start_url c →
      loop_cond c = true →
      within c p →
      point N d sdo cb start_url p
  | pt_left fuel o :
      crawl_website fuel (init N d sdo cb) start_url = Some o →
      point N d sdo cb start_url (final o).

(** With [same_domain_only], every queued URL is on the domain of
    [start_url]. *)
Definition anchored (start_url : string) (c : WebCrawler) : Prop :=
  same_domain_only c = true →
  ∀ u, u ∈ url_queue c → get_domain u = get_domain start_url.

(** The hrefs of the anchors of a page that [urljoin] resolves against
    the URL of the page, resolved. *)
Definition resolved_hrefs (html page_url : string) : list string :=
  omap (urljoin page_url) (find_all_a_href html).

End Crawl.

(** The URLs of the fetches in a trace, in order. *)
Definition fetched_urls (t : list event) : list string :=
  omap (fun e => match e with Fetch u => Some u | _ => None end) t.

(** The attributes of the object, without the trace. *)
Definition attrs (c : WebCrawler) :=
  (max_pages c, delay c, same_domain_only c, visited_urls c,
   scraped_content c, url_queue c, found_links c, progress_callback c).

(** The URLs of a session in the order in which they entered the queue:
    those fetched already, then those still waiting. *)
Definition discovery_order (c : WebCrawler) : list string :=
  fetched_urls (trace c) ++ url_queue c.

(** [session_state c pages waiting found]: the pages fetched and stored so
    far, in order, the queue and the found links of [c]. *)
Definition session_state (c : WebCrawler) (pages waiting : list string)
    (found : gset string) : Prop :=
  (scraped_content c).*1 = pages
  ∧ visited_urls c = list_to_set pages
  ∧ fetched_urls (trace c) = pages
  ∧ url_queue c = waiting
  ∧ found_links c = found.

(** ** Invariants of the frontier *)

(** Everything visited or queued has been found; the queue holds a URL once
    and holds no visited URL. *)
Definition frontier_ok (c : WebCrawler) : Prop :=
  visited_urls c ⊆ found_links c
  ∧ (∀ u, u ∈ url_queue c → u ∈ found_links c)
  ∧ NoDup (url_queue c)
  ∧ (∀ u, u ∈ url_queue c → u ∉ visited_urls c).

(** The page budget. *)
Definition budget_ok (c : WebCrawler) : Prop :=
  (Z.of_nat (size (visited_urls c)) ≤ max_pages c)%Z.

(** The keys of [scraped_content] are the visited URLs, each once. *)
Definition content_ok (c : WebCrawler) : Prop :=
  NoDup (scraped_content c).*1
  ∧ (∀ u, u ∈ (scraped_content c).*1 ↔ u ∈ visited_urls c).

(** What is visited or queued has been found. *)
Definition superset_ok (c : WebCrawler) : Prop :=
  visited_urls c ⊆ found_links c
  ∧ (∀ u, u ∈ url_queue c → u ∈ found_links c).

(** ** What a session leaves behind *)

(** The sleeps of a trace, in order, by their length in seconds. *)
Definition slept (t : list event) : list Z :=
  omap (fun e => match e with Sleep seconds => Some seconds | _ => None end) t.

(** The fetches and the sleeps of a trace, in order, without the
    reports. *)
Definition fetches_and_sleeps (t : list event) : list event :=
  omap (fun e => match e with Progress _ => None | _ => Some e end) t.

(** The fetches of the URLs of [fetched], in order, each followed by one
    sleep of [d] seconds when its page is among [stored] and [d] is
    positive. *)
Definition paced (d : Z) (stored fetched : list string) : list event :=
  flat_map
    (fun u =>
       Fetch u ::
       if bool_decide (u ∈ stored) && (0 <? d)%Z then [Sleep d] else [])
    fetched.

(** A progress report that is consistent with a crawler of [N] pages: it
    names that budget, counts no more visited pages than the budget, and
    no more visited and waiting URLs than found ones. *)
Definition report_ok (N : Z) (e : event) : Prop :=
  match e with
  | Progress pd =>
      pd_max_pages pd = N
      ∧ (Z.of_nat (pd_visited_count pd) ≤ N)%Z
      ∧ (pd_visited_count pd + pd_queue_size pd ≤ pd_total_links_found pd)%nat
  | _ => True
  end.

(** The dict that [get_crawl_stats] returns. *)
Record crawl_stats : Type := {
  pages_scraped : nat;
  total_links_discovered : nat;
  pages_in_queue : nat;
  cs_max_pages : Z;
  completion_percentage : Q;
  cs_visited_urls : list string;
  remaining_queue : list string;
}.

(** [WebCrawler.get_crawl_stats]; the percentage divides by [max_pages],
    callback or not.  [list_of_set] is the order in which Python iterates
    over a set. *)
Definition get_crawl_stats (list_of_set : gset string → list string)
    (self : WebCrawler) : exn + crawl_stats :=
  if (max_pages self =? 0)%Z then inl ZeroDivisionError
  else
    inr {| pages_scraped := size (visited_urls self);
           total_links_discovered := size (found_links self);
           pages_in_queue := length (url_queue self);
           cs_max_pages := max_pages self;
           completion_percentage :=
             Qmin ((inject_Z (Z.of_nat (size (visited_urls self)))
                    / inject_Z (max_pages self)) * inject_Z 100)
                  (inject_Z 100);
           cs_visited_urls := list_of_set (visited_urls self);
           remaining_queue := url_queue self |}.

(** ** The display of a report ([main.py], [progress_callback])

    The URL of a report is shown whole when it has at most 50 characters
    and cut to its first 47 followed by three dots otherwise; a report
    without a URL, or with the empty one, shows none.  A text is a list
    of characters, and [of_ascii] gives the characters of the text in the
    source. *)

Section Display.

Context {char : Type}.
Variable of_ascii : ascii → char.

Definition literal (s : string) : list char :=
  map of_ascii (list_ascii_of_string s).

(** [(url[:47] + "...") if len(url) > 50 else url] *)
Definition display_url (current_url : list char) : list char :=
  if (50 <? length current_url)%nat
  then take 47 current_url ++ literal "..."
  else current_url.

(** What [progress_callback] writes to [current_metric] for the
    [current_url] of a report, [None] when it writes nothing. *)
Definition current_text (current_url : option (list char))
    : option (list char) :=
  match current_url with
  | Some [] | None => None
  | Some url => Some (literal "Current: " ++ display_url url)
  end.

End Display.

(** ** Cleaning the text of a page

    [get_all_content] and [clean_body_content] turn the text of a page
    into its non-blank lines, each stripped, joined by newlines.  A text
    is a list of characters; which characters are white space and which
    end a line is Python's business: [is_space] is [str.isspace] on one
    character, [is_break] tells the line boundaries of [str.splitlines],
    [is_cr] and [is_lf] recognise carriage return and newline, [lf] is
    the newline. *)

Section Text.

Context {char : Type}.
Variable is_space is_break is_cr is_lf : char → bool.
Variable lf : char.

(** [str.splitlines]: a line ends at a line boundary, a carriage return
    and the newline after it are one boundary, and what follows the last
    boundary is a line when it is not empty.  [line] is the line read so
    far. *)
Fixpoint splitlines_from (line text : list char) : list (list char) :=
  match text with
  | [] => match line with [] => [] | _ => [line] end
  | c :: rest =>
      if is_break c then
        line ::
        match rest with
        | c' :: rest' =>
            if is_cr c && is_lf c' then splitlines_from [] rest'
            else splitlines_from [] rest
        | [] => splitlines_from [] rest
        end
      else splitlines_from (line ++ [c]) rest
  end.

Definition splitlines (text : list char) : list (list char) :=
  splitlines_from [] text.

Fixpoint lstrip (s : list char) : list char :=
  match s with
  | [] => []
  | c :: t => if is_space c then lstrip t else s
  end.

(** [str.strip] *)
Definition strip (s : list char) : list char :=
  reverse (lstrip (reverse (lstrip s))).

(** [sep.join(parts)] *)
Fixpoint join (sep : list char) (parts : list (list char)) : list char :=
  match parts with
  | [] => []
  | [p] => p
  | p :: rest => p ++ sep ++ join sep rest
  end.

(** Python truthiness of a string *)
Definition nonempty (s : list char) : bool :=
  match s with [] => false | _ => true end.

(** ["\n".join(line.strip() for line in text.splitlines() if line.strip())] *)
Definition clean_text (text : list char) : list char :=
  join [lf]
    (map strip (filter (fun line => nonempty (strip line)) (splitlines text))).

End Text.

(** ** Cutting a text into pieces ([scrape.py], [split_dom_content]) *)

(** The number of elements of [range(start, stop, step)], [step] not 0. *)
Definition range_length (start stop step : Z) : Z :=
  if (0 <? step)%Z
  then (if (start <? stop)%Z then 1 + (stop - 1 - start) / step else 0)%Z
  else (if (stop <? start)%Z then 1 + (start - 1 - stop) / (- step) else 0)%Z.

(** [range(start, stop, step)]; [None] stands for the [ValueError] that a
    step of 0 raises. *)
Definition py_range (start stop step : Z) : option (list Z) :=
  if (step =? 0)%Z then None
  else Some (map (fun k => (start + Z.of_nat k * step)%Z)
               (seq 0 (Z.to_nat (range_length start stop step)))).

(** A bound of a slice: counted from the end when negative, then clipped
    to the sequence. *)
Definition slice_bound (len i : Z) : Z :=
  Z.max 0 (Z.min len (if (i <? 0)%Z then i + len else i))%Z.

(** [text[i:j]] *)
Definition py_slice {A : Type} (text : list A) (i j : Z) : list A :=
  let len := Z.of_nat (length text) in
  let lo := slice_bound len i in
  let hi := slice_bound len j in
  take (Z.to_nat (hi - lo)) (drop (Z.to_nat lo) text).

(** [split_dom_content]:
    [[text[i : i + max_length] for i in range(0, len(text), max_length)]] *)
Definition split_dom_content {A : Type} (text : list A) (max_length : Z)
    : option (list (list A)) :=
  match py_range 0 (Z.of_nat (length text)) max_length with
  | None => None
  | Some starts =>
      Some (map (fun i => py_slice text i (i + max_length)) starts)
  end.

(** ** Characters with code points below 256

    Python's classes of characters on the characters of a [string] read
    as code points: white space is tab to carriage return, the four
    separators from 28 to 31, the space, 133 and 160; of these the
    boundaries of lines are all but tab, 31, the space and 160. *)

Module Latin1.

Definition is_break (a : ascii) : bool :=
  let n := nat_of_ascii a in
  ((10 <=? n) && (n <=? 13) || (28 <=? n) && (n <=? 30) || (n =? 133))%nat.

Definition is_space (a : ascii) : bool :=
  let n := nat_of_ascii a in
  ((9 <=? n) && (n <=? 13) || (28 <=? n) && (n <=? 32)
   || (n =? 133) || (n =? 160))%nat.

Definition is_cr (a : ascii) : bool := (nat_of_ascii a =? 13)%nat.
Definition is_lf (a : ascii) : bool := (nat_of_ascii a =? 10)%nat.
Definition lf : ascii := ascii_of_nat 10.

(** the cleaning of a [string] *)
Definition clean (text : string) : string :=
  string_of_list_ascii
    (clean_text is_space is_break is_cr is_lf lf (list_ascii_of_string text)).

End Latin1.

(** ** A small site

    Four pages on one host: the front page links to [/b] and [/c], [/b]
    links to [/d] and to a page on another host, [/c] and [/d] link
    nowhere.  The stand-ins for the collaborators answer on these pages
    only. *)

Module Demo.

Definition seed_url := "https://x.com/".
Definition url_b := "https://x.com/b".
Definition url_c := "https://x.com/c".
Definition url_d := "https://x.com/d".
Definition url_other := "https://other.com/about".

(** a URL that [urlsplit] rejects: the bracket of its host is not closed *)
Definition url_bad := "http://[x/".

Definition page_seed :=
  "<a href='https://x.com/b'>b</a><a href='https://x.com/c'>c</a>".
Definition page_b :=
  "<a href='https://x.com/d'>d</a><a href='https://other.com/about'>o</a>".
Definition page_c := "<p>c</p>".
Definition page_d := "<p>d</p>".
Definition page_login :=
  "<a href='https://x.com/login'>in</a><a href='https://x.com/about'>a</a>".
Definition page_bad := "<a href='http://[x/'>x</a>".

Definition find_all_a_href (html : string) : list string :=
  if String.eqb html page_seed then [url_b; url_c]
  else if String.eqb html page_b then [url_d; url_other]
  else if String.eqb html page_login
  then ["https://x.com/login"; "https://x.com/about"]
  else if String.eqb html page_bad then [url_bad]
  else [].

(** a library that accepts every bracketed host *)
Definition checknetloc (netloc : string) : bool := true.

Definition unicode_lower (url : string) : string := url.

(** every [href] of the site is absolute already, and [urljoin] raises on
    the one that [urlsplit] rejects *)
Definition urljoin (base href : string) : option string :=
  match get_domain checknetloc href with
  | inl _ => None
  | inr _ => Some href
  end.

Definition list_of_set (X : gset string) : list string :=
  reverse (elements X).

Definition scrape_website (t : list event) (url : string) : fetch_result :=
  if String.eqb url seed_url then FetchReturned page_seed
  else if String.eqb url url_b then FetchReturned page_b
  else if String.eqb url url_c then FetchReturned page_c
  else if String.eqb url url_d then FetchReturned page_d
  else FetchRaised.

(** the site when it is down *)
Definition scrape_down (t : list event) (url : string) : fetch_result :=
  FetchRaised.

(** the site when it answers with empty pages *)
Definition scrape_empty (t : list event) (url : string) : fetch_result :=
  FetchReturned "".

(** the site when [/b] is down and [/c] holds a link that cannot be
    parsed *)
Definition scrape_broken (t : list event) (url : string) : fetch_result :=
  if String.eqb url seed_url then FetchReturned page_seed
  else if String.eqb url url_c then FetchReturned page_bad
  else FetchRaised.

(** [crawl_website] on the site *)
Definition session (scrape_website : list event → string → fetch_result)
    (fuel : nat) (self : WebCrawler) (start_url : string) : option outcome :=
  crawl_website checknetloc unicode_lower find_all_a_href urljoin list_of_set
    scrape_website fuel self start_url.

Definition crawl (N : Z) (cb : bool) : option outcome :=
  session scrape_website 10 (init N 2 true cb) seed_url.

(** one turn of the loop on the site *)
Definition turn (scrape_website : list event → string → fetch_result)
    (self : WebCrawler) : outcome :=
  loop_body checknetloc unicode_lower find_all_a_href urljoin list_of_set
    scrape_website self.

(** the crawler of a session on the site when the loop is first tested,
    and after the front page is reported to the callback *)
Definition head0 : WebCrawler :=
  final (update_progress (seeded (init 10 2 true true) seed_url) MsgStarting
           (Some seed_url) 0).

Definition reported0 : WebCrawler :=
  final (update_progress (set_url_queue [] head0) MsgScraping
           (Some seed_url) 0).

(** the crawler when the loop is tested for the second time, the front
    page stored, and after [/b] is reported to the callback *)
Definition head1 : WebCrawler := final (turn scrape_website head0).

Definition reported1 : WebCrawler :=
  final (update_progress (set_url_queue [url_c] head1) MsgScraping
           (Some url_b) 0).

End Demo.

(** ** The small site, crawled *)

Module Crawled.

(** the crawler that a session on the small site leaves *)
Definition crawler : WebCrawler :=
  match Demo.crawl 10 true with
  | Some o => final o
  | None => init 10 2 true true
  end.

(** a page text of three lines, the second blank, with padding *)
Definition sample_text : list ascii :=
  list_ascii_of_string
    (String.append "  a line  "
       (String Latin1.lf (String Latin1.lf "second line "))).

End Crawled.

Example netloc_abs checknetloc :
  get_domain checknetloc "https://x.com/about" = inr "x.com".
Proof. reflexivity. Qed.

Example netloc_port checknetloc :
  get_domain checknetloc "HTTP://u@x.com:80?q#f" = inr "u@x.com:80".
Proof. reflexivity. Qed.

Example netloc_rel checknetloc : get_domain checknetloc "/about" = inr "".
Proof. reflexivity. Qed.

Example netloc_open_bracket checknetloc :
  get_domain checknetloc "http://[x/" = inl ValueError.
Proof. reflexivity. Qed.

Example netloc_bracketed checknetloc :
  get_domain checknetloc "http://[::1]:80/"
  = if checknetloc "[::1]:80" then inr "[::1]:80" else inl ValueError.
Proof. reflexivity. Qed.

Example valid_about checknetloc unicode_lower :
  is_valid_url checknetloc unicode_lower (init 10 2 true false)
    "https://x.com/about" "x.com" = inr true.
Proof. vm_compute. reflexivity. Qed.

Example demo_crawl_order :
  option_map (fun o => map fst (scraped_content (final o))) (Demo.crawl 10 true)
  = Some [Demo.seed_url; Demo.url_b; Demo.url_c; Demo.url_d].
Proof. vm_compute. reflexivity. Qed.

(** ** Callbacks, offers and the frontier *)

Lemma update_progress_cases c m u n :
  (progress_callback c = false ∧ update_progress c m u n = Returned c)
  ∨ (progress_callback c = true ∧ max_pages c = 0%Z
     ∧ update_progress c m u n = Raised ZeroDivisionError c)
  ∨ (progress_callback c = true ∧ max_pages c ≠ 0%Z
     ∧ ∃ d, update_progress c m u n = Returned (emit (Progress d) c)
            ∧ pd_message d = m ∧ pd_current_url d = u).
Proof.
  unfold update_progress.
  destruct (progress_callback c); [|by left].
  right. destruct (Z.eqb_spec (max_pages c) 0) as [E|E].
  - by left.
  - right. repeat split; [done|]. eexists. repeat split.
Qed.

Lemma update_progress_attrs c m u n c' :
  update_progress c m u n = Returned c' → attrs c' = attrs c.
Proof.
  destruct (update_progress_cases c m u n)
    as [[_ E]|[(_ & _ & E)|(_ & _ & d & E & _)]];
    rewrite E; intros [= <-]; reflexivity.
Qed.

Lemma update_progress_fetched c m u n c' :
  update_progress c m u n = Returned c' →
  fetched_urls (trace c') = fetched_urls (trace c).
Proof.
  destruct (update_progress_cases c m u n)
    as [[_ E]|[(_ & _ & E)|(_ & _ & d & E & _)]];
    rewrite E; intros [= <-]; [done|].
  simpl. unfold fetched_urls. rewrite omap_app. simpl. by rewrite app_nil_r.
Qed.

Lemma update_progress_returns c m u n :
  max_pages c ≠ 0%Z → ∃ c', update_progress c m u n = Returned c'.
Proof.
  intros Hn.
  destruct (update_progress_cases c m u n)
    as [[_ E]|[(_ & E0 & _)|(_ & _ & d & E & _)]]; eauto. done.
Qed.

Lemma attrs_eq c c' :
  attrs c' = attrs c →
  max_pages c' = max_pages c ∧ delay c' = delay c
  ∧ same_domain_only c' = same_domain_only c
  ∧ visited_urls c' = visited_urls c
  ∧ scraped_content c' = scraped_content c
  ∧ url_queue c' = url_queue c
  ∧ found_links c' = found_links c
  ∧ progress_callback c' = progress_callback c.
Proof. unfold attrs. intros [= -> -> -> -> -> -> -> ->]. done. Qed.

Lemma offer_found st link : link ∈ found_links (offer st link).1.
Proof.
  destruct st as [c n]. unfold offer.
  repeat case_decide; simpl; set_solver.
Qed.

Lemma offer_known c n link :
  link ∈ found_links c → offer (c, n) link = (c, n).
Proof. intros H. unfold offer. by rewrite decide_True. Qed.

Lemma offer_fixed st link :
  let c := st.1 in let c' := (offer st link).1 in
  max_pages c' = max_pages c ∧ delay c' = delay c
  ∧ same_domain_only c' = same_domain_only c
  ∧ visited_urls c' = visited_urls c
  ∧ scraped_content c' = scraped_content c
  ∧ progress_callback c' = progress_callback c
  ∧ trace c' = trace c.
Proof.
  destruct st as [c n]. unfold offer. repeat case_decide; simpl; done.
Qed.

Lemma offers_fixed links st :
  let c := st.1 in let c' := (fold_left offer links st).1 in
  max_pages c' = max_pages c ∧ delay c' = delay c
  ∧ same_domain_only c' = same_domain_only c
  ∧ visited_urls c' = visited_urls c
  ∧ scraped_content c' = scraped_content c
  ∧ progress_callback c' = progress_callback c
  ∧ trace c' = trace c.
Proof.
  revert st. induction links as [|l links IH]; intros st; simpl; [done|].
  destruct (IH (offer st l)) as (?&?&?&?&?&?&?).
  destruct (offer_fixed st l) as (?&?&?&?&?&?&?).
  simpl in *. repeat split; congruence.
Qed.

Lemma offer_frontier st link :
  frontier_ok st.1 → frontier_ok (offer st link).1.
Proof.
  destruct st as [c n]. unfold offer, frontier_ok. simpl.
  intros (Hv & Hq & Hnd & Hqv).
  repeat case_decide; simpl; try done.
  - repeat split.
    + set_solver.
    + intros u [Hu|Hu]%elem_of_app; [apply Hq in Hu|]; set_solver.
    + apply NoDup_app. repeat split; [done| |apply NoDup_singleton].
      intros x Hx Hx'. apply list_elem_of_singleton in Hx'. subst.
      apply Hq in Hx. done.
    + intros u [Hu|Hu]%elem_of_app; [by apply Hqv|].
      apply list_elem_of_singleton in Hu. subst. set_solver.
  - repeat split; [set_solver| |done|done].
    intros u Hu. apply Hq in Hu. set_solver.
Qed.

Lemma offers_frontier links st :
  frontier_ok st.1 → frontier_ok (fold_left offer links st).1.
Proof.
  revert st. induction links as [|l links IH]; intros st H; simpl; [done|].
  by apply IH, offer_frontier.
Qed.

Lemma loop_cond_true c :
  loop_cond c = true →
  (∃ u rest, url_queue c = u :: rest)
  ∧ (Z.of_nat (size (visited_urls c)) < max_pages c)%Z.
Proof.
  unfold loop_cond. intros [Hq Hb]%andb_prop. split.
  - destruct (url_queue c) as [|u rest]; [done|eauto].
  - by apply Z.ltb_lt.
Qed.

Lemma loop_cond_max_pages c : loop_cond c = true → max_pages c ≠ 0%Z.
Proof. intros [_ H]%loop_cond_true. lia. Qed.

Lemma frontier_attrs c c' :
  attrs c' = attrs c → frontier_ok c → frontier_ok c'.
Proof.
  intros (_&_&_&Ev&_&Eq&Ef&_)%attrs_eq. unfold frontier_ok.
  by rewrite Ev, Eq, Ef.
Qed.

Lemma frontier_superset c : frontier_ok c → superset_ok c.
Proof. intros (?&?&_). by split. Qed.

Lemma frontier_popleft c u rest :
  frontier_ok c → url_queue c = u :: rest →
  frontier_ok (set_url_queue rest c) ∧ u ∈ found_links c ∧ (u ∉ rest)
  ∧ (u ∉ visited_urls c).
Proof.
  intros (Hv & Hq & Hnd & Hqv) E. rewrite E in *.
  apply NoDup_cons in Hnd as [Hu Hnd].
  repeat split; simpl; try done.
  - intros x Hx. apply Hq. by right.
  - intros x Hx. apply Hqv. by right.
  - apply Hq. by left.
  - apply Hqv. by left.
Qed.

Lemma frontier_mark c u rest html c1 :
  frontier_ok c → url_queue c = u :: rest →
  attrs c1 = attrs (set_url_queue rest c) →
  frontier_ok (mark_visited u html c1)
  ∧ frontier_ok (set_visited_urls (visited_urls c1 ∪ {[ u ]}) c1).
Proof.
  intros Hf E A.
  destruct (frontier_popleft c u rest Hf E) as ((Hv & Hq & Hnd & Hqv) & Hu & Hr & _).
  apply attrs_eq in A as (_&_&_&Ev&_&Eq&Ef&_). simpl in *.
  unfold frontier_ok, mark_visited. simpl. rewrite Ev, Eq, Ef.
  assert (∀ x, x ∈ rest → x ∉ visited_urls c ∪ {[u]}).
  { intros x Hx. specialize (Hqv x Hx).
    assert (x ≠ u) by (by intros ->). set_solver. }
  split; (repeat split; [set_solver|done..]).
Qed.

Lemma size_add (X : gset string) u : u ∉ X → size (X ∪ {[ u ]}) = S (size X).
Proof.
  intros H. rewrite size_union by set_solver. rewrite size_singleton. lia.
Qed.

Lemma dict_set_keys_new k v d :
  k ∉ d.*1 → (dict_set k v d).*1 = d.*1 ++ [k].
Proof.
  induction d as [|[k' v'] d IH]; simpl; [done|].
  intros H. apply not_elem_of_cons in H as [Hne Hd].
  destruct (String.eqb_spec k k'); [done|].
  rewrite fmap_cons. simpl. f_equal. by apply IH.
Qed.

Lemma content_length c :
  content_ok c → length (scraped_content c) = size (visited_urls c).
Proof.
  intros [Hnd Hk].
  rewrite <- (length_fmap fst (scraped_content c)).
  unfold size, set_size. simpl.
  apply Permutation_length, NoDup_Permutation; [done|apply NoDup_elements|].
  intros x. rewrite Hk. by rewrite elem_of_elements.
Qed.

Lemma offer_queue st link :
  url_queue (offer st link).1 = url_queue st.1
  ∨ ((link ∉ found_links st.1)
     ∧ url_queue (offer st link).1 = url_queue st.1 ++ [link]).
Proof.
  destruct st as [c n]. unfold offer.
  repeat case_decide; simpl; auto.
Qed.

Lemma offers_queue links st :
  ∃ news,
    url_queue (fold_left offer links st).1 = url_queue st.1 ++ news
    ∧ ∀ x, x ∈ news → x ∈ links.
Proof.
  revert st. induction links as [|l links IH]; intros st; simpl.
  - exists []. split; [by rewrite app_nil_r|]. intros x H.
    by apply elem_of_nil in H.
  - destruct (IH (offer st l)) as (news & E & Hn). rewrite E.
    destruct (offer_queue st l) as [->|[_ ->]].
    + exists news. split; [done|]. intros x Hx. right. by apply Hn.
    + exists (l :: news). split; [by rewrite <- app_assoc|].
      intros x [->|Hx]%elem_of_cons; [by left|]. right. by apply Hn.
Qed.

Lemma content_attrs c c' :
  attrs c' = attrs c → content_ok c → content_ok c'.
Proof.
  intros (_&_&_&Ev&Es&_)%attrs_eq. unfold content_ok. by rewrite Ev, Es.
Qed.

Lemma seed_frontier N d sdo cb start_url :
  let c := seeded (init N d sdo cb) start_url in
  frontier_ok c ∧ content_ok c.
Proof.
  repeat split; simpl.
  - set_solver.
  - intros u ->%list_elem_of_singleton. set_solver.
  - apply NoDup_singleton.
  - set_solver.
  - apply NoDup_nil_2.
  - intros H. by apply elem_of_nil in H.
  - set_solver.
Qed.

Lemma superset_attrs c c' :
  attrs c' = attrs c → superset_ok c → superset_ok c'.
Proof.
  intros (_&_&_&Ev&_&Eq&Ef&_)%attrs_eq. unfold superset_ok.
  by rewrite Ev, Eq, Ef.
Qed.

Lemma seed_visited N d sdo cb start_url :
  size (visited_urls (seeded (init N d sdo cb) start_url)) = 0.
Proof. apply size_empty. Qed.

Lemma fetches_and_sleeps_emit e c :
  fetches_and_sleeps (trace (emit e c))
  = fetches_and_sleeps (trace c)
    ++ match e with Progress _ => [] | _ => [e] end.
Proof. simpl. unfold fetches_and_sleeps. rewrite omap_app. by destruct e. Qed.

Lemma update_progress_fetches_and_sleeps c m u n c' :
  update_progress c m u n = Returned c' →
  fetches_and_sleeps (trace c') = fetches_and_sleeps (trace c).
Proof.
  unfold update_progress. destruct (progress_callback c); [|by intros [= <-]].
  destruct (max_pages c =? 0)%Z; [done|]. intros [= <-].
  by rewrite fetches_and_sleeps_emit, app_nil_r.
Qed.

Lemma paced_snoc d stored fetched u :
  paced d stored (fetched ++ [u])
  = paced d stored fetched
    ++ Fetch u ::
       (if bool_decide (u ∈ stored) && (0 <? d)%Z then [Sleep d] else []).
Proof.
  unfold paced. rewrite flat_map_app. simpl. by rewrite app_nil_r.
Qed.

(** A page stored last changes nothing for the URLs fetched before it. *)
Lemma paced_stored d stored fetched u :
  u ∉ fetched → paced d (stored ++ [u]) fetched = paced d stored fetched.
Proof.
  unfold paced. induction fetched as [|v l IH]; [done|].
  intros [Hne Hl]%not_elem_of_cons. simpl. rewrite (IH Hl). do 2 f_equal.
  assert (bool_decide (v ∈ stored ++ [u]) = bool_decide (v ∈ stored)) as ->;
    [|done].
  apply bool_decide_ext. rewrite elem_of_app, list_elem_of_singleton.
  split; [intros [?|?]; [done|congruence]|by left].
Qed.

Lemma fetched_emit e c :
  fetched_urls (trace (emit e c))
  = fetched_urls (trace c) ++ match e with Fetch u => [u] | _ => [] end.
Proof.
  simpl. unfold fetched_urls. rewrite omap_app. by destruct e.
Qed.

Lemma offers_new links c n :
  frontier_ok c → NoDup links → (∀ x, x ∈ links → x ∉ found_links c) →
  url_queue (fold_left offer links (c, n)).1 = url_queue c ++ links
  ∧ found_links (fold_left offer links (c, n)).1
    = found_links c ∪ list_to_set links.
Proof.
  revert c n. induction links as [|l links IH]; intros c n Hf Hnd Hnew.
  - simpl. rewrite app_nil_r. split; [done|]. set_solver.
  - apply NoDup_cons in Hnd as [Hl Hnd].
    assert (l ∉ found_links c) as Hlf by (apply Hnew; by left).
    set (c' := set_url_queue (url_queue c ++ [l])
                 (set_found_links (found_links c ∪ {[ l ]}) c)).
    assert (offer (c, n) l = (c', S n)) as Eo.
    { destruct Hf as (Hv & Hq & _). unfold offer.
      rewrite decide_False by done.
      rewrite decide_True; [done|].
      simpl. split; [set_solver|intros H%Hq; done]. }
    pose proof (offer_frontier (c, n) l Hf) as Hf'.
    cbn [fold_left]. rewrite Eo in Hf' |- *. simpl in Hf'.
    destruct (IH c' (S n) Hf' Hnd) as [Eq Ef].
    { simpl. intros x Hx. specialize (Hnew x (list_elem_of_further _ _ _ Hx)).
      assert (x ≠ l) by (by intros ->). set_solver. }
    rewrite Eq, Ef. simpl. split; [by rewrite <- app_assoc|].
    set_solver.
Qed.

Lemma offer_found_mono st link :
  found_links st.1 ⊆ found_links (offer st link).1.
Proof.
  destruct st as [c n]. unfold offer. repeat case_decide; simpl; set_solver.
Qed.

Lemma offers_found_mono links st :
  found_links st.1 ⊆ found_links (fold_left offer links st).1.
Proof.
  revert st. induction links as [|l links IH]; intros st; simpl; [done|].
  etrans; [apply (offer_found_mono st l)|apply IH].
Qed.

Lemma offers_queue_new links st :
  ∃ news,
    url_queue (fold_left offer links st).1 = url_queue st.1 ++ news
    ∧ ∀ x, x ∈ news → x ∉ found_links st.1.
Proof.
  revert st. induction links as [|l links IH]; intros st; simpl.
  - exists []. split; [by rewrite app_nil_r|]. intros x H.
    by apply elem_of_nil in H.
  - destruct (IH (offer st l)) as (news & E & Hn). rewrite E.
    pose proof (offer_found_mono st l) as Hm.
    destruct (offer_queue st l) as [->|[Hl ->]].
    + exists news. split; [done|]. intros x Hx%Hn. set_solver.
    + exists (l :: news). split; [by rewrite <- app_assoc|].
      intros x [->|Hx%Hn]%elem_of_cons; [done|]. set_solver.
Qed.

Lemma dict_set_new k v d : k ∉ d.*1 → dict_set k v d = d ++ [(k, v)].
Proof.
  induction d as [|[k' v'] d IH]; simpl; [done|].
  intros H. apply not_elem_of_cons in H as [Hne Hd].
  destruct (String.eqb_spec k k'); [done|]. by rewrite IH.
Qed.

Lemma update_progress_slept c m u n c' :
  update_progress c m u n = Returned c' → slept (trace c') = slept (trace c).
Proof.
  destruct (update_progress_cases c m u n)
    as [[_ E]|[(_ & _ & E)|(_ & _ & d & E & _)]];
    rewrite E; intros [= <-]; [done|].
  simpl. unfold slept. rewrite omap_app. simpl. by rewrite app_nil_r.
Qed.

Lemma slept_emit e c :
  slept (trace (emit e c))
  = slept (trace c) ++ match e with Sleep seconds => [seconds] | _ => [] end.
Proof. simpl. unfold slept. rewrite omap_app. by destruct e. Qed.

(** The visited and the waiting URLs are different found links. *)
Lemma frontier_count c :
  frontier_ok c →
  (size (visited_urls c) + length (url_queue c) ≤ size (found_links c))%nat.
Proof.
  intros (Hv & Hq & Hnd & Hqv).
  rewrite <- (size_list_to_set (C:=gset string) (url_queue c)) by done.
  rewrite <- size_union.
  - apply subseteq_size. intros x [?|Hx%elem_of_list_to_set]%elem_of_union;
      [by apply Hv|by apply Hq].
  - intros x Hx Hx'%elem_of_list_to_set. by apply (Hqv x).
Qed.

(** A report made in a state where the frontier is consistent and the
    budget kept is a consistent report. *)
Lemma update_progress_report N c m u n c' :
  frontier_ok c →
  (Z.of_nat (size (visited_urls c)) ≤ N)%Z →
  max_pages c = N →
  Forall (report_ok N) (trace c) →
  update_progress c m u n = Returned c' →
  Forall (report_ok N) (trace c').
Proof.
  intros Hfr Hb Hm Ht. unfold update_progress.
  destruct (progress_callback c); [|by intros [= <-]].
  destruct (max_pages c =? 0)%Z; [done|]. intros [= <-]. simpl.
  apply Forall_app. split; [done|]. apply Forall_singleton. simpl.
  split; [done|]. split; [done|]. by apply frontier_count.
Qed.

Lemma update_progress_returns_if c m u n :
  progress_callback c = false ∨ max_pages c ≠ 0%Z →
  ∃ c', update_progress c m u n = Returned c'.
Proof.
  intros H.
  destruct (update_progress_cases c m u n)
    as [[_ E]|[(Hcb & E0 & _)|(_ & _ & d & E & _)]]; eauto.
  destruct H; congruence.
Qed.

(** ** The netloc of a URL written out *)

Lemma scheme_char_facts (a : ascii) :
  Url.is_scheme_char a = true →
  Ascii.eqb a ":" = false ∧ Url.is_unsafe a = false.
Proof.
  destruct a as [[] [] [] [] [] [] [] []]; vm_compute; intros; split;
    congruence.
Qed.

Lemma alpha_not_stripped (a : ascii) :
  Url.is_alpha a = true → (nat_of_ascii a <=? 32)%nat = false.
Proof. destruct a as [[] [] [] [] [] [] [] []]; vm_compute; congruence. Qed.

Lemma delimiter_kept (a : ascii) :
  Url.is_delimiter a = true → Url.is_unsafe a = false.
Proof. destruct a as [[] [] [] [] [] [] [] []]; vm_compute; congruence. Qed.

Lemma remove_unsafe_app (s t : string) :
  Url.all_chars (λ a, negb (Url.is_unsafe a)) s = true →
  Url.remove_unsafe (String.append s t)
  = String.append s (Url.remove_unsafe t).
Proof.
  induction s as [|a s IH]; simpl; [done|].
  intros [Ha Hs]%andb_prop. apply negb_true_iff in Ha.
  unfold Url.is_unsafe in Ha. cbv zeta in Ha. rewrite Ha. by rewrite IH.
Qed.

Lemma all_chars_impl (p q : ascii → bool) (s : string) :
  (∀ a, p a = true → q a = true) →
  Url.all_chars p s = true → Url.all_chars q s = true.
Proof.
  intros Hpq. induction s as [|a s IH]; simpl; [done|].
  intros [Ha Hs]%andb_prop. by rewrite (Hpq a Ha), IH.
Qed.

Lemma after_scheme_app (s t : string) :
  Url.all_chars Url.is_scheme_char s = true →
  Url.after_scheme (String.append s (String ":" t)) = Some t.
Proof.
  induction s as [|a s IH]; simpl; [done|].
  intros [Ha Hs]%andb_prop.
  destruct (scheme_char_facts a Ha) as [-> _]. by rewrite Ha, IH.
Qed.

Lemma splitnetloc_app (s t : string) :
  Url.all_chars (λ a, negb (Url.is_delimiter a)) s = true →
  Url.wf_rest t = true →
  Url.splitnetloc (String.append s t) = s.
Proof.
  intros Hs Ht. induction s as [|a s IH]; simpl.
  - destruct t as [|b t]; [done|]. simpl in *.
    unfold Url.is_delimiter in Ht. by rewrite Ht.
  - simpl in Hs. apply andb_prop in Hs as [Ha Hs].
    apply negb_true_iff in Ha. unfold Url.is_delimiter in Ha.
    rewrite Ha. by rewrite IH.
Qed.

(** The netloc of [scheme://authority] followed by a path, a query or a
    fragment is the authority. *)
Lemma netloc_absolute (scheme authority rest : string) :
  Url.wf_scheme scheme = true →
  Url.wf_authority authority = true →
  Url.wf_rest rest = true →
  Url.netloc (Url.absolute scheme authority rest) = authority.
Proof.
  intros Hs Ha Hr. unfold Url.netloc, Url.absolute.
  destruct scheme as [|a0 scheme]; [done|].
  simpl in Hs. apply andb_prop in Hs as [Halpha [Ha0 Hs]%andb_prop].
  assert (Url.all_chars Url.is_scheme_char (String a0 scheme) = true) as Hsch
    by (simpl; by rewrite Ha0, Hs).
  assert (Url.lstrip_c0
            (String.append (String a0 scheme)
               (String.append "://" (String.append authority rest)))
          = String.append (String a0 scheme)
              (String.append "://" (String.append authority rest))) as ->.
  { simpl. by rewrite (alpha_not_stripped a0 Halpha). }
  rewrite remove_unsafe_app.
  2:{ apply (all_chars_impl Url.is_scheme_char); [|done].
      intros a H. destruct (scheme_char_facts a H) as [_ ->]. done. }
  change (Url.remove_unsafe
            (String.append "://" (String.append authority rest)))
    with (String ":" (String "/" (String "/"
            (Url.remove_unsafe (String.append authority rest))))).
  rewrite remove_unsafe_app.
  2:{ apply (all_chars_impl _ _ _ (λ a H, proj2 (andb_prop _ _ H)) Ha). }
  assert (Url.strip_scheme
            (String.append (String a0 scheme)
               (String ":" (String "/" (String "/"
                  (String.append authority (Url.remove_unsafe rest))))))
          = String "/" (String "/"
              (String.append authority (Url.remove_unsafe rest)))) as ->.
  { change (String.append (String a0 scheme) ?t)
      with (String a0 (String.append scheme t)).
    unfold Url.strip_scheme. rewrite Halpha.
    change (String a0 (String.append scheme ?t))
      with (String.append (String a0 scheme) t).
    by rewrite after_scheme_app. }
  apply splitnetloc_app.
  - apply (all_chars_impl _ _ _ (λ a H, proj1 (andb_prop _ _ H)) Ha).
  - destruct rest as [|b rest]; [done|]. simpl in Hr. simpl.
    pose proof (delimiter_kept b Hr) as Hb.
    unfold Url.is_unsafe in Hb. cbv zeta in Hb. by rewrite Hb.
Qed.

(** ** Turns of the loop and sessions *)

Section Steps.

Variable checknetloc : string → bool.
Variable unicode_lower : string → string.
Variable find_all_a_href : string → list string.
Variable urljoin : string → string → option string.
Variable list_of_set : gset string → list string.
Variable scrape_website : list event → string → fetch_result.

Abbreviation get_domain := (get_domain checknetloc).
Abbreviation is_valid_url := (is_valid_url checknetloc unicode_lower).
Abbreviation collect_links :=
  (collect_links checknetloc unicode_lower urljoin).
Abbreviation extract_links :=
  (extract_links checknetloc unicode_lower find_all_a_href urljoin
     list_of_set).
Abbreviation resolved_hrefs := (resolved_hrefs find_all_a_href urljoin).
Abbreviation scraping := (scraping scrape_website).
Abbreviation loop_body :=
  (loop_body checknetloc unicode_lower find_all_a_href urljoin list_of_set
     scrape_website).
Abbreviation iteration :=
  (iteration checknetloc unicode_lower find_all_a_href urljoin list_of_set
     scrape_website).
Abbreviation raising :=
  (raising checknetloc unicode_lower find_all_a_href urljoin list_of_set
     scrape_website).
Abbreviation while_loop :=
  (while_loop checknetloc unicode_lower find_all_a_href urljoin list_of_set
     scrape_website).
Abbreviation reach :=
  (reach checknetloc unicode_lower find_all_a_href urljoin list_of_set
     scrape_website).
Abbreviation seed := (seed checknetloc).
Abbreviation crawl_website :=
  (crawl_website checknetloc unicode_lower find_all_a_href urljoin
     list_of_set scrape_website).
Abbreviation loop_head :=
  (loop_head checknetloc unicode_lower find_all_a_href urljoin list_of_set
     scrape_website).
Abbreviation within :=
  (within checknetloc unicode_lower find_all_a_href urljoin list_of_set
     scrape_website).
Abbreviation point :=
  (point checknetloc unicode_lower find_all_a_href urljoin list_of_set
     scrape_website).
Abbreviation anchored := (anchored checknetloc).

(** *** URLs that are parsed, and URLs that are not *)

Lemma get_domain_netloc url domain :
  get_domain url = inr domain → domain = Url.netloc url.
Proof.
  unfold get_domain.
  repeat (match goal with |- context [if ?b then _ else _] => destruct b end);
    congruence.
Qed.

Lemma get_domain_raises url e : get_domain url = inl e → e = ValueError.
Proof.
  unfold get_domain.
  repeat (match goal with |- context [if ?b then _ else _] => destruct b end);
    congruence.
Qed.

Lemma seed_cases c start_url :
  (∃ domain, get_domain start_url = inr domain
             ∧ seed c start_url = Returned (seeded c start_url))
  ∨ (get_domain start_url = inl ValueError
     ∧ seed c start_url = Raised ValueError (queued c start_url)).
Proof.
  unfold seed. destruct (get_domain start_url) as [e|domain] eqn:E.
  - right. by rewrite (get_domain_raises _ _ E).
  - left. by exists domain.
Qed.

Lemma is_valid_url_domain c x bd :
  same_domain_only c = true → is_valid_url c x bd = inr true →
  get_domain x = inr bd.
Proof.
  intros Hs. unfold is_valid_url. rewrite Hs.
  destruct (_ || _); [done|]. cbv zeta.
  destruct (existsb _ EXCLUDED_EXTENSIONS); [done|].
  destruct (existsb _ EXCLUDED_URL_KEYWORDS); [done|].
  destruct (get_domain x) as [e|domain]; [done|].
  intros [= H]. by apply String.eqb_eq in H as ->.
Qed.

Lemma is_valid_url_any_domain c x bd bd' :
  same_domain_only c = false → is_valid_url c x bd = is_valid_url c x bd'.
Proof. intros Hs. unfold is_valid_url. by rewrite Hs. Qed.

Lemma is_valid_url_config c c' url base_domain :
  same_domain_only c = same_domain_only c' →
  is_valid_url c url base_domain = is_valid_url c' url base_domain.
Proof. intros Hs. unfold is_valid_url. by rewrite Hs. Qed.

Lemma is_valid_url_raises c x bd e :
  is_valid_url c x bd = inl e → e = ValueError.
Proof.
  unfold is_valid_url.
  destruct (_ || _); [done|]. cbv zeta.
  destruct (existsb _ EXCLUDED_EXTENSIONS); [done|].
  destruct (existsb _ EXCLUDED_URL_KEYWORDS); [done|].
  destruct (same_domain_only c); [|done].
  destruct (get_domain x) as [e'|domain] eqn:E; [|done].
  intros [= <-]. by apply (get_domain_raises x).
Qed.

Lemma collect_links_raises c base bd hrefs links e :
  collect_links c base bd hrefs links = inl e → e = ValueError.
Proof.
  revert links. induction hrefs as [|h hrefs IH]; intros links; simpl; [done|].
  destruct (urljoin base h) as [x|]; [|by intros [= <-]].
  destruct (is_valid_url c x bd) as [e'|valid] eqn:E.
  - intros [= <-]. by apply (is_valid_url_raises c x bd).
  - apply IH.
Qed.

Lemma extract_links_raises c html base e :
  extract_links c html base = inl e → e = ValueError.
Proof.
  unfold extract_links.
  destruct (get_domain base) as [e'|bd] eqn:E.
  - intros [= <-]. by apply (get_domain_raises base).
  - destruct (collect_links c base bd (find_all_a_href html) ∅)
      as [e'|links] eqn:E'; [|done].
    intros [= <-]. by apply (collect_links_raises c base bd _ _ _ E').
Qed.




Lemma collect_links_config c c' base bd hrefs links :
  same_domain_only c = same_domain_only c' →
  collect_links c base bd hrefs links = collect_links c' base bd hrefs links.
Proof.
  intros Hs. revert links.
  induction hrefs as [|h hrefs IH]; intros links; simpl; [done|].
  destruct (urljoin base h) as [x|]; [|done].
  rewrite (is_valid_url_config c c' x bd Hs).
  destruct (is_valid_url c' x bd); [done|apply IH].
Qed.

Lemma extract_links_config c c' html base :
  same_domain_only c = same_domain_only c' →
  extract_links c html base = extract_links c' html base.
Proof.
  intros Hs. unfold extract_links.
  destruct (get_domain base) as [e|bd]; [done|].
  by rewrite (collect_links_config c c' base bd _ _ Hs).
Qed.

(** *** One turn of the loop *)

Lemma iteration_loop_body c c' : iteration c c' → loop_body c = Returned c'.
Proof.
  intros H. unfold loop_body.
  destruct H as [u rest Hq Hv|u rest c1 c2 Hq Hv H1 Hf H2
                |u rest c1 html links c4 n c5 Hq Hv H1 Hs Hh He Ho H2];
    rewrite Hq; simpl.
  - by rewrite decide_True.
  - rewrite decide_False by done. rewrite H1. simpl.
    destruct (scrape_single_page scrape_website c1 u) as [h c2'] eqn:E.
    simpl in Hf. rewrite Hf.
    unfold scrape_single_page in E.
    destruct (scrape_website (trace c1) u); injection E as <- <-; done.
  - rewrite decide_False by done. rewrite H1. simpl.
    unfold scrape_single_page. rewrite Hs. simpl.
    destruct (String.eqb_spec html ""); [done|]. simpl.
    rewrite He, Ho. rewrite H2. done.
Qed.

Lemma raising_loop_body c e c' : raising c e c' → loop_body c = Raised e c'.
Proof.
  intros (u & rest & c1 & html & (Hq & Hv & H1 & Hs & Hh) & He & ->).
  unfold loop_body. rewrite Hq. simpl.
  rewrite decide_False by done. rewrite H1. simpl.
  unfold scrape_single_page. rewrite Hs. simpl.
  destruct (String.eqb_spec html ""); [done|]. simpl.
  by rewrite He.
Qed.

(** A turn of the loop comes back to the test, or [extract_links] raises
    [ValueError] on the page it has stored. *)
Lemma loop_body_cases c :
  loop_cond c = true →
  (∃ c', loop_body c = Returned c' ∧ iteration c c')
  ∨ (∃ c', loop_body c = Raised ValueError c' ∧ raising c ValueError c').
Proof.
  intros Hc. pose proof (loop_cond_max_pages c Hc) as Hn.
  destruct (loop_cond_true c Hc) as [(u & rest & Hq) _].
  cut ((∃ c', iteration c c') ∨ (∃ c', raising c ValueError c')).
  { intros [[c' H]|[c' H]]; [left|right]; exists c'.
    - split; [by apply iteration_loop_body|done].
    - split; [by apply raising_loop_body|done]. }
  destruct (decide (u ∈ visited_urls c)) as [Hv|Hv].
  { left. eexists. by eapply iter_skip. }
  destruct (update_progress_returns (set_url_queue rest c) MsgScraping
              (Some u) 0) as [c1 H1]; [done|].
  pose proof (update_progress_attrs _ _ _ _ _ H1) as A1.
  apply attrs_eq in A1 as (M1 & _). simpl in M1.
  assert (Hfail : truthy (scrape_single_page scrape_website c1 u).1 = false →
                  ∃ c', iteration c c').
  { intros Hf.
    destruct (update_progress_returns (emit (Fetch u) c1) MsgFailed
                (Some u) 0) as [c2 H2]; [simpl; congruence|].
    eexists. by eapply iter_fail. }
  destruct (scrape_website (trace c1) u) as [|html] eqn:Hs.
  { left. apply Hfail. unfold scrape_single_page. by rewrite Hs. }
  destruct (String.eqb_spec html "") as [->|Hh].
  { left. apply Hfail. unfold scrape_single_page. by rewrite Hs. }
  destruct (extract_links (mark_visited u html (emit (Fetch u) c1)) html u)
    as [e|links] eqn:He.
  { right. rewrite (extract_links_raises _ _ _ _ He) in He.
    eexists. exists u, rest, c1, html. by repeat split. }
  left.
  destruct (fold_left offer links
              (mark_visited u html (emit (Fetch u) c1), 0)) as [c4 n] eqn:Ho.
  pose proof (offers_fixed links
                (mark_visited u html (emit (Fetch u) c1), 0)) as F.
  rewrite Ho in F. simpl in F. destruct F as (M4 & _).
  destruct (update_progress_returns c4 (MsgFound n) (Some u) (length links))
    as [c5 H5]; [congruence|].
  eexists. by eapply iter_success.
Qed.

Lemma loop_body_returned c c' :
  loop_cond c = true → loop_body c = Returned c' → iteration c c'.
Proof.
  intros Hc Hb.
  destruct (loop_body_cases c Hc) as [(c'' & E & Hi)|(c'' & E & _)];
    congruence.
Qed.

Lemma loop_body_raised c e c' :
  loop_cond c = true → loop_body c = Raised e c' →
  e = ValueError ∧ raising c ValueError c'.
Proof.
  intros Hc Hb.
  destruct (loop_body_cases c Hc) as [(c'' & E & _)|(c'' & E & Hr)];
    [congruence|].
  rewrite Hb in E. by injection E as -> ->.
Qed.
(** *** The invariants over one turn *)

Lemma iteration_fixed c c' :
  iteration c c' →
  max_pages c' = max_pages c ∧ delay c' = delay c
  ∧ same_domain_only c' = same_domain_only c
  ∧ progress_callback c' = progress_callback c.
Proof.
  intros [u rest Hq Hv|u rest c1 c2 Hq Hv H1 Hf H2
         |u rest c1 html links c4 n c5 Hq Hv H1 Hs Hh He Ho H2]; [done|..].
  - apply update_progress_attrs, attrs_eq in H1 as (?&?&?&_&_&_&_&?).
    apply update_progress_attrs, attrs_eq in H2 as (?&?&?&_&_&_&_&?).
    simpl in *. repeat split; congruence.
  - apply update_progress_attrs, attrs_eq in H1 as (?&?&?&_&_&_&_&?).
    apply update_progress_attrs, attrs_eq in H2 as (?&?&?&_&_&_&_&?).
    pose proof (offers_fixed links
      (mark_visited u html (emit (Fetch u) c1), 0)) as F.
    rewrite Ho in F. simpl in F. destruct F as (?&?&?&_&_&?&_).
    destruct (0 <? delay c5)%Z; simpl in *; repeat split; congruence.
Qed.

(** A turn leaves the visited set as it is and shortens the queue, or
    visits one more page. *)
Lemma iteration_progress c c' :
  iteration c c' →
  (visited_urls c' = visited_urls c
   ∧ scraped_content c' = scraped_content c
   ∧ found_links c' = found_links c
   ∧ ∃ u, url_queue c = u :: url_queue c')
  ∨ (∃ u html, (u ∉ visited_urls c) ∧ html ≠ ""
     ∧ visited_urls c' = visited_urls c ∪ {[ u ]}
     ∧ scraped_content c' = dict_set u html (scraped_content c)).
Proof.
  intros [u rest Hq Hv|u rest c1 c2 Hq Hv H1 Hf H2
         |u rest c1 html links c4 n c5 Hq Hv H1 Hs Hh He Ho H2].
  - left. simpl. eauto.
  - left.
    apply update_progress_attrs, attrs_eq in H1 as (_&_&_&?&?&?&?&_).
    apply update_progress_attrs, attrs_eq in H2 as (_&_&_&?&?&?&?&_).
    simpl in *. repeat split; try congruence. exists u. congruence.
  - right. exists u, html.
    apply update_progress_attrs, attrs_eq in H1 as (_&_&_&?&?&?&?&_).
    apply update_progress_attrs, attrs_eq in H2 as (_&_&_&?&?&?&?&_).
    pose proof (offers_fixed links
      (mark_visited u html (emit (Fetch u) c1), 0)) as F.
    rewrite Ho in F. simpl in F. destruct F as (_&_&_&?&?&_&_).
    destruct (0 <? delay c5)%Z; simpl in *; repeat split; congruence.
Qed.

Lemma iteration_frontier c c' :
  frontier_ok c → iteration c c' → frontier_ok c'.
Proof.
  intros Hf [u rest Hq Hv|u rest c1 c2 Hq Hv H1 Hfl H2
            |u rest c1 html links c4 n c5 Hq Hv H1 Hs Hh He Ho H2].
  - by apply (frontier_popleft c u rest).
  - apply update_progress_attrs in H1, H2.
    apply (frontier_attrs (set_url_queue rest c));
      [by rewrite H2, <- H1|by apply (frontier_popleft c u rest)].
  - apply update_progress_attrs in H1, H2.
    assert (frontier_ok c5) as H5.
    { apply (frontier_attrs c4); [done|].
      pose proof (offers_frontier links
        (mark_visited u html (emit (Fetch u) c1), 0)) as F.
      rewrite Ho in F. apply F. simpl.
      by apply (frontier_mark c u rest html (emit (Fetch u) c1)). }
    destruct (0 <? delay c5)%Z; [|done].
    by apply (frontier_attrs c5).
Qed.

Lemma iteration_budget c c' :
  loop_cond c = true → iteration c c' → budget_ok c'.
Proof.
  intros [_ Hlt]%loop_cond_true Hi. unfold budget_ok.
  destruct (iteration_fixed c c' Hi) as (-> & _).
  destruct (iteration_progress c c' Hi)
    as [(-> & _)|(u & html & Hu & _ & -> & _)]; [lia|].
  rewrite size_add by done. lia.
Qed.

(** *** The stored pages *)

Lemma iteration_content c c' :
  content_ok c → iteration c c' → content_ok c'.
Proof.
  intros [Hnd Hk] Hi. unfold content_ok.
  destruct (iteration_progress c c' Hi)
    as [(-> & -> & _)|(u & html & Hu & _ & -> & ->)]; [done|].
  assert (u ∉ (scraped_content c).*1) as Hn by (by rewrite Hk).
  rewrite dict_set_keys_new by done. split.
  - apply NoDup_app. repeat split; [done| |apply NoDup_singleton].
    intros x Hx ->%list_elem_of_singleton. done.
  - intros x. rewrite elem_of_app, list_elem_of_singleton, Hk. set_solver.
Qed.

(** *** A turn that raises *)

(** What an exception of [extract_links] leaves: the page fetched and
    stored, the queue without its URL, and nothing found. *)
Lemma raising_shape c e c' :
  frontier_ok c → content_ok c → raising c e c' →
  ∃ u rest c1 html,
    scraping c u rest c1 html
    ∧ c' = mark_visited u html (emit (Fetch u) c1)
    ∧ max_pages c' = max_pages c ∧ delay c' = delay c
    ∧ same_domain_only c' = same_domain_only c
    ∧ progress_callback c' = progress_callback c
    ∧ visited_urls c' = visited_urls c ∪ {[ u ]}
    ∧ scraped_content c' = scraped_content c ++ [(u, html)]
    ∧ url_queue c' = rest
    ∧ found_links c' = found_links c
    ∧ fetched_urls (trace c') = fetched_urls (trace c) ++ [u]
    ∧ slept (trace c') = slept (trace c)
    ∧ fetches_and_sleeps (trace c')
      = fetches_and_sleeps (trace c) ++ [Fetch u]
    ∧ frontier_ok c' ∧ content_ok c'.
Proof.
  intros Hfr Hco (u & rest & c1 & html & Hsc & He & ->).
  pose proof Hsc as (Hq & Hv & H1 & Hs & Hh).
  exists u, rest, c1, html. split; [done|]. split; [done|].
  pose proof (update_progress_fetched _ _ _ _ _ H1) as T1.
  pose proof (update_progress_slept _ _ _ _ _ H1) as Z1.
  pose proof (update_progress_fetches_and_sleeps _ _ _ _ _ H1) as P1.
  pose proof (update_progress_attrs _ _ _ _ _ H1) as A1.
  pose proof A1 as (M1&D1&S1&V1&C1&Q1&F1&B1)%attrs_eq.
  simpl in M1, D1, S1, V1, C1, Q1, F1, B1, T1, Z1, P1.
  destruct Hco as [Hnd Hk].
  assert (scraped_content (mark_visited u html (emit (Fetch u) c1))
          = scraped_content c ++ [(u, html)]) as S3.
  { simpl. rewrite C1. apply dict_set_new. by rewrite Hk. }
  assert (visited_urls (mark_visited u html (emit (Fetch u) c1))
          = visited_urls c ∪ {[ u ]}) as V3 by (simpl; by rewrite V1).
  assert (trace (mark_visited u html (emit (Fetch u) c1))
          = trace (emit (Fetch u) c1)) as T3 by done.
  assert (frontier_ok (mark_visited u html (emit (Fetch u) c1))) as Hfr'
    by apply (frontier_mark c u rest html (emit (Fetch u) c1) Hfr Hq A1).
  assert (content_ok (mark_visited u html (emit (Fetch u) c1))) as Hco'.
  { unfold content_ok. rewrite S3, V3, fmap_app.
    change ([(u, html)].*1) with [u]. split.
    - apply NoDup_app. repeat split; [done| |apply NoDup_singleton].
      intros x Hx ->%list_elem_of_singleton. by apply Hk in Hx.
    - intros x. rewrite elem_of_app, list_elem_of_singleton, Hk.
      set_solver. }
  split; [done|]. split; [done|]. split; [done|]. split; [done|].
  split; [done|]. split; [done|]. split; [done|]. split; [done|].
  split; [by rewrite T3, fetched_emit, T1|].
  split; [rewrite T3, slept_emit, Z1; by rewrite app_nil_r|].
  split; [by rewrite T3, fetches_and_sleeps_emit, P1|].
  done.
Qed.

(** *** The loop stops *)

Lemma while_loop_terminates c : ∃ fuel o, while_loop fuel c = Some o.
Proof.
  remember (Z.to_nat (max_pages c - Z.of_nat (size (visited_urls c)))) as b
    eqn:Eb.
  revert c Eb. induction (lt_wf b) as [b _ IHb]. intros c Eb.
  remember (length (url_queue c)) as q eqn:Eq.
  revert c Eb Eq. induction (lt_wf q) as [q _ IHq]. intros c Eb Eq.
  destruct (loop_cond c) eqn:Hc.
  2:{ exists 0, (Returned c). simpl. by rewrite Hc. }
  destruct (loop_body_cases c Hc) as [(c' & Hb & Hi)|(c' & Hb & _)].
  2:{ exists 1, (Raised ValueError c'). simpl. by rewrite Hc, Hb. }
  destruct (loop_cond_true c Hc) as [_ Hlt].
  destruct (iteration_fixed c c' Hi) as (Em & _).
  assert (∃ fuel o, while_loop fuel c' = Some o) as (fuel & o & Hw).
  { destruct (iteration_progress c c' Hi)
      as [(Ev & _ & _ & u & Equ)|(u & html & Hu & _ & Ev & _)].
    - apply (IHq (length (url_queue c'))); [|congruence|done].
      rewrite Eq, Equ. simpl. lia.
    - eapply (IHb _ _ c' eq_refl). Unshelve.
      rewrite Eb, Em, Ev, size_add by done. lia. }
  exists (S fuel), o. simpl. by rewrite Hc, Hb.
Qed.

Lemma reach_cons c c1 c' :
  loop_cond c = true → loop_body c = Returned c1 → reach c1 c' → reach c c'.
Proof.
  intros Hc Hb H. induction H as [|c' c'' H IH Hc' Hb'].
  - eapply reach_step; [apply reach_refl|done..].
  - by eapply reach_step.
Qed.

(** The loop is left at its test, which fails, or from a turn that
    raises. *)
Lemma while_loop_reach fuel c o :
  while_loop fuel c = Some o →
  ∃ c', reach c c'
    ∧ ((o = Returned c' ∧ loop_cond c' = false)
       ∨ (∃ cr, o = Raised ValueError cr ∧ loop_cond c' = true
                ∧ raising c' ValueError cr)).
Proof.
  revert c. induction fuel as [|fuel IH]; intros c; simpl;
    destruct (loop_cond c) eqn:Hc; try done.
  - intros [= <-]. exists c. split; [apply reach_refl|by left].
  - destruct (loop_body_cases c Hc) as [(c1 & Hb & _)|(cr & Hb & Hr)];
      rewrite Hb.
    + intros (c' & Hr & H)%IH. exists c'. split; [by eapply reach_cons|done].
    + intros [= <-]. exists c. split; [apply reach_refl|].
      right. by exists cr.
  - intros [= <-]. exists c. split; [apply reach_refl|by left].
Qed.

Lemma reach_iteration_ind (P : WebCrawler → Prop) c :
  P c →
  (∀ c1 c2, P c1 → loop_cond c1 = true → iteration c1 c2 → P c2) →
  ∀ c', reach c c' → P c'.
Proof.
  intros H0 Hstep c' H. induction H as [|c' c'' H IH Hc Hb]; [done|].
  apply (Hstep c'); [done..|]. by apply loop_body_returned.
Qed.

(** *** Sessions *)

Lemma crawl_website_terminates c start_url :
  ∃ fuel o, crawl_website fuel c start_url = Some o.
Proof.
  unfold crawl_website.
  destruct (seed c start_url) as [c0|e c0]; [|by exists 0; eauto].
  destruct (update_progress c0 MsgStarting (Some start_url) 0)
    as [cs|e cs]; [|by exists 0; eauto].
  destruct (while_loop_terminates cs) as (fuel & o & Hw).
  exists fuel. rewrite Hw. destruct o; eauto.
Qed.

(** At the test of the loop the frontier and the stored pages are
    consistent and the configuration is the one the crawler was made
    with. *)
Lemma loop_head_inv N d sdo cb start_url c :
  loop_head N d sdo cb start_url c →
  frontier_ok c ∧ content_ok c
  ∧ max_pages c = N ∧ delay c = d
  ∧ same_domain_only c = sdo ∧ progress_callback c = cb.
Proof.
  intros (_ & cs & Hs & Hr). revert c Hr. apply reach_iteration_ind.
  - apply update_progress_attrs in Hs.
    destruct (seed_frontier N d sdo cb start_url) as (Hf & Hc).
    split; [by apply (frontier_attrs _ _ Hs)|].
    split; [by apply (content_attrs _ _ Hs)|].
    by apply attrs_eq in Hs as (?&?&?&_&_&_&_&?).
  - intros c1 c2 (Hf & Hc & Hm & Hd & Hsd & Hcb) Hcond Hi.
    split; [by eapply iteration_frontier|].
    split; [by eapply iteration_content|].
    destruct (iteration_fixed c1 c2 Hi) as (?&?&?&?).
    repeat split; congruence.
Qed.

Lemma loop_head_budget N d sdo cb start_url c :
  (0 ≤ N)%Z → loop_head N d sdo cb start_url c → budget_ok c.
Proof.
  intros HN (_ & cs & Hs & Hr). revert c Hr. apply reach_iteration_ind.
  - apply update_progress_attrs, attrs_eq in Hs as (Em&_&_&Ev&_).
    unfold budget_ok. rewrite Em, Ev.
    change (Z.of_nat (size (∅ : gset string)) ≤ N)%Z.
    rewrite size_empty. lia.
  - intros c1 c2 _ Hcond Hi. by eapply iteration_budget.
Qed.

Lemma loop_head_step N d sdo cb start_url c c' :
  loop_head N d sdo cb start_url c →
  loop_cond c = true → loop_body c = Returned c' →
  loop_head N d sdo cb start_url c'.
Proof.
  intros (Hdom & cs & Hs & Hr) Hc Hb. split; [done|].
  exists cs. split; [done|]. by eapply reach_step.
Qed.

Lemma loop_head_reach N d sdo cb start_url c c' :
  loop_head N d sdo cb start_url c → reach c c' →
  loop_head N d sdo cb start_url c'.
Proof.
  intros Hh Hr. induction Hr as [|c' c'' _ IH Hc Hb]; [done|].
  by apply (loop_head_step _ _ _ _ _ c').
Qed.

(** How [crawl_website] on a new crawler ends: [get_domain] raises on the
    start URL, the first report divides by zero, the loop is left at its
    test, or a turn of the loop raises. *)
Lemma crawl_website_cases fuel N d sdo cb start_url o :
  crawl_website fuel (init N d sdo cb) start_url = Some o →
  (get_domain start_url = inl ValueError
   ∧ o = Raised ValueError (queued (init N d sdo cb) start_url))
  ∨ ((∃ domain, get_domain start_url = inr domain)
     ∧ cb = true ∧ N = 0%Z
     ∧ o = Raised ZeroDivisionError (seeded (init N d sdo cb) start_url))
  ∨ (∃ c cf, loop_head N d sdo cb start_url c ∧ loop_cond c = false
     ∧ o = Returned cf
     ∧ update_progress c
         (MsgCompleted (size (visited_urls c)) (size (found_links c)))
         None 0 = Returned cf)
  ∨ (∃ c cr, loop_head N d sdo cb start_url c ∧ loop_cond c = true
     ∧ raising c ValueError cr
     ∧ o = Raised ValueError cr).
Proof.
  unfold crawl_website.
  destruct (seed_cases (init N d sdo cb) start_url)
    as [(domain & Hdom & ->)|(Hdom & ->)].
  2:{ intros [= <-]. by left. }
  intros Ho. right. revert Ho. cbv beta iota.
  destruct (update_progress_cases (seeded (init N d sdo cb) start_url)
              MsgStarting (Some start_url) 0)
    as [[Hcb E]|[(Hcb & HN & E)|(Hcb & HN & pd & E & _)]];
    rewrite E; simpl in Hcb.
  2:{ intros [= <-]. left. split; [by exists domain|done]. }
  all: destruct (while_loop fuel _) as [o'|] eqn:Hw; [|done].
  all: apply while_loop_reach in Hw as (c & Hr & Hend).
  all: assert (loop_head N d sdo cb start_url c) as Hh
         by (split; [by exists domain|eexists; split; [exact E|done]]).
  all: destruct (loop_head_inv _ _ _ _ _ _ Hh) as (_&_&Em&_&_&Ec).
  all: intros Ho; right.
  all: destruct Hend as [[-> Hc]|(cr & -> & Hc & Hraise)];
         [left|right; exists c, cr; by injection Ho as <-].
  - destruct (update_progress_cases c
      (MsgCompleted (size (visited_urls c)) (size (found_links c))) None 0)
      as [[_ E']|[(Hcb' & _)|(Hcb' & _)]]; [|congruence..].
    injection Ho as <-. exists c, c. by rewrite E'.
  - destruct (update_progress_returns c
      (MsgCompleted (size (visited_urls c)) (size (found_links c))) None 0)
      as [cf E']; [simpl in HN; congruence|].
    injection Ho as <-. exists c, cf. by rewrite E'.
Qed.
(** *** Inside a turn of the loop *)

Lemma scraping_marked c u rest c1 html :
  scraping c u rest c1 html →
  let c3 := mark_visited u html (emit (Fetch u) c1) in
  max_pages c3 = max_pages c
  ∧ visited_urls c3 = visited_urls c ∪ {[ u ]}
  ∧ (frontier_ok c →
     frontier_ok c3
     ∧ frontier_ok
         (set_visited_urls (visited_urls c1 ∪ {[ u ]}) (emit (Fetch u) c1))).
Proof.
  intros (Hq & Hv & H1 & Hs & Hh). simpl.
  apply update_progress_attrs in H1.
  pose proof H1 as (Em&_&_&Ev&_)%attrs_eq. simpl in *.
  split; [done|]. split; [by rewrite Ev|]. intros Hf.
  by apply (frontier_mark c u rest html (emit (Fetch u) c1)).
Qed.

Lemma within_shape c p :
  within c p →
  max_pages p = max_pages c
  ∧ (visited_urls p = visited_urls c
     ∨ ∃ u, (u ∉ visited_urls c) ∧ visited_urls p = visited_urls c ∪ {[ u ]})
  ∧ (frontier_ok c → superset_ok p).
Proof.
  intros [u rest Hq|u rest c1 Hq Hv H1|u rest c1 Hq Hv H1
         |u rest c1 html Hs|u rest c1 html Hs
         |u rest c1 html links k Hs c3 He
         |u rest c1 html links k link Hs c3 He ck Hl Hn
         |u rest c1 html links c4 n c5 Hs c3 He Ho H5].
  - split; [done|]. split; [by left|].
    intros Hf. by apply frontier_superset, (frontier_popleft c u rest).
  - apply update_progress_attrs in H1.
    pose proof H1 as (Em&_&_&Ev&_)%attrs_eq. simpl in *.
    split; [done|]. split; [by left|]. intros Hf.
    apply (superset_attrs _ _ H1).
    by apply frontier_superset, (frontier_popleft c u rest).
  - apply update_progress_attrs in H1.
    pose proof H1 as (Em&_&_&Ev&_)%attrs_eq. simpl in *.
    split; [done|]. split; [by left|]. intros Hf.
    apply (superset_attrs (set_url_queue rest c)); [done|].
    by apply frontier_superset, (frontier_popleft c u rest).
  - pose proof Hs as (Hq & Hv & H1 & _).
    destruct (scraping_marked c u rest c1 html Hs) as (Em & Ev & Hf3).
    simpl in *. split; [done|]. split; [right; by exists u|].
    intros Hf. by apply frontier_superset, Hf3.
  - pose proof Hs as (Hq & Hv & H1 & _).
    destruct (scraping_marked c u rest c1 html Hs) as (Em & Ev & Hf3).
    split; [done|]. split; [right; by exists u|].
    intros Hf. by apply frontier_superset, Hf3.
  - pose proof Hs as (Hq & Hv & _).
    destruct (scraping_marked c u rest c1 html Hs) as (Em & Ev & Hf3).
    destruct (offers_fixed (take k links) (c3, 0))
      as (Em' & _ & _ & Ev' & _).
    split; [etrans; [exact Em'|exact Em]|].
    split; [right; exists u; split; [done|etrans; [exact Ev'|exact Ev]]|].
    intros Hf. apply frontier_superset.
    apply (offers_frontier (take k links) (c3, 0)).
    by apply Hf3.
  - pose proof Hs as (Hq & Hv & _).
    destruct (scraping_marked c u rest c1 html Hs) as (Em & Ev & Hf3).
    destruct (offers_fixed (take k links) (c3, 0))
      as (Em' & _ & _ & Ev' & _).
    split; [etrans; [exact Em'|exact Em]|].
    split; [right; exists u; split; [done|etrans; [exact Ev'|exact Ev]]|].
    intros Hf.
    assert (frontier_ok ck) as (Hv' & Hq' & _).
    { apply (offers_frontier (take k links) (c3, 0)).
      by apply Hf3. }
    split; simpl; [set_solver|]. intros x Hx. apply Hq' in Hx. set_solver.
  - pose proof Hs as (Hq & Hv & _).
    destruct (scraping_marked c u rest c1 html Hs) as (Em & Ev & Hf3).
    pose proof (offers_fixed links (c3, 0)) as F.
    pose proof (offers_frontier links (c3, 0)) as G.
    rewrite Ho in F, G. simpl in F, G. destruct F as (Em' & _ & _ & Ev' & _).
    apply update_progress_attrs in H5.
    pose proof H5 as (Em5&_&_&Ev5&_)%attrs_eq.
    split; [by rewrite Em5, Em'|].
    split; [right; exists u; split; [done|by rewrite Ev5, Ev']|].
    intros Hf.
    apply (superset_attrs _ _ H5), frontier_superset, G. by apply Hf3.
Qed.

Lemma within_budget c p :
  loop_cond c = true → within c p →
  max_pages p = max_pages c ∧ budget_ok p.
Proof.
  intros [_ Hlt]%loop_cond_true (Em & Hv & _)%within_shape.
  split; [done|]. unfold budget_ok. rewrite Em.
  destruct Hv as [->|(u & Hu & ->)]; [lia|].
  rewrite size_add by done. lia.
Qed.

(** An exception of [extract_links] leaves the object as it is between
    two statements of the turn. *)
Lemma raising_within c e c' : raising c e c' → within c c'.
Proof.
  intros (u & rest & c1 & html & Hs & _ & ->). by eapply in_stored.
Qed.

(** The object that [crawl_website] leaves: as the assignment of the
    queue left it, as the seeding left it, as the last test of the loop
    left it but for the trace, or as a turn that raised left it. *)
Lemma left_attrs fuel N d sdo cb start_url o :
  crawl_website fuel (init N d sdo cb) start_url = Some o →
  final o = queued (init N d sdo cb) start_url
  ∨ final o = seeded (init N d sdo cb) start_url
  ∨ (∃ c, loop_head N d sdo cb start_url c ∧ loop_cond c = false
          ∧ attrs (final o) = attrs c)
  ∨ (∃ c, loop_head N d sdo cb start_url c ∧ loop_cond c = true
          ∧ raising c ValueError (final o)).
Proof.
  intros [(_ & ->)|[(_ & _ & _ & ->)|[(c & cf & Hh & Hc & -> & Hu)
         |(c & cr & Hh & Hc & Hr & ->)]]]%crawl_website_cases.
  - by left.
  - right. by left.
  - right. right. left. exists c. split; [done|]. split; [done|].
    by apply update_progress_attrs in Hu.
  - right. right. right. by exists c.
Qed.

(** *** The page budget *)

(** C1. In a session on a crawler made with [max_pages = N], [N] not
    negative, whatever the fetcher answers: at every point of the session
    at most [N] URLs are visited, the mapping [crawl_website] returns has
    at most [N] entries, and [crawl_website] does end. *)
Theorem crawl_budget N d sdo cb start_url :
  (0 ≤ N)%Z →
  (∀ p, point N d sdo cb start_url p →
        max_pages p = N ∧ (Z.of_nat (size (visited_urls p)) ≤ N)%Z)
  ∧ (∀ fuel o,
        crawl_website fuel (init N d sdo cb) start_url = Some o →
        (Z.of_nat (length (scraped_content (final o))) ≤ N)%Z)
  ∧ ∃ fuel o, crawl_website fuel (init N d sdo cb) start_url = Some o.
Proof.
  intros HN.
  assert (Hhead : ∀ c, loop_head N d sdo cb start_url c →
            max_pages c = N ∧ (Z.of_nat (size (visited_urls c)) ≤ N)%Z).
  { intros c Hh. destruct (loop_head_inv _ _ _ _ _ _ Hh) as (_&_&Em&_).
    split; [done|]. rewrite <- Em.
    by apply (loop_head_budget N d sdo cb start_url). }
  assert (Hin : ∀ c p, loop_head N d sdo cb start_url c →
            loop_cond c = true → within c p →
            max_pages p = N ∧ (Z.of_nat (size (visited_urls p)) ≤ N)%Z).
  { intros c p Hh Hc Hw.
    destruct (within_budget c p Hc Hw) as [Em Hb].
    destruct (Hhead c Hh) as [EN _]. split; [congruence|].
    unfold budget_ok in Hb. congruence. }
  assert (Hnew : (Z.of_nat (size (∅ : gset string)) ≤ N)%Z)
    by (rewrite size_empty; lia).
  split; [|split].
  - intros p0 [| |domain Hdom|c Hh|c p Hh Hc Hw|fuel o Ho].
    + by split.
    + by split.
    + by split.
    + by apply Hhead.
    + by apply (Hin c).
    + destruct (left_attrs _ _ _ _ _ _ _ Ho)
        as [->|[->|[(c & Hh & _ & A)|(c & Hh & Hc & Hr)]]].
      * by split.
      * by split.
      * apply attrs_eq in A as (Em&_&_&Ev&_). rewrite Em, Ev.
        by apply Hhead.
      * apply (Hin c); [done..|]. by apply (raising_within c ValueError).
  - intros fuel o Ho.
    destruct (left_attrs _ _ _ _ _ _ _ Ho)
      as [->|[->|[(c & Hh & _ & A)|(c & Hh & Hc & Hr)]]].
    + simpl. lia.
    + simpl. lia.
    + apply attrs_eq in A as (_&_&_&_&Es&_). rewrite Es.
      destruct (loop_head_inv _ _ _ _ _ _ Hh) as (_&Hco&_).
      rewrite (content_length c Hco). by apply Hhead.
    + destruct (loop_head_inv _ _ _ _ _ _ Hh) as (Hfr&Hco&_).
      destruct (raising_shape c ValueError (final o) Hfr Hco Hr)
        as (u & rest & c1 & html & _ & _ & _ & _ & _ & _ & _ & _ & _ & _
            & _ & _ & _ & _ & Hco').
      rewrite (content_length _ Hco').
      by apply (Hin c), (raising_within c ValueError).
  - apply crawl_website_terminates.
Qed.

(** *** Found links *)

(** The visited URLs are among the found ones, and so is every URL in
    the queue, at every point of a session but one: between the
    assignment of the queue and [found_links.add(start_url)], which is
    also where an exception of [get_domain(start_url)] leaves the
    object. *)
Lemma superset_points N d sdo cb start_url p :
  point N d sdo cb start_url p →
  p = queued (init N d sdo cb) start_url ∨ superset_ok p.
Proof.
  intros [| |domain Hdom|c Hh|c q Hh Hc Hw|fuel o Ho].
  - right. split; simpl; [done|]. intros u H. by apply elem_of_nil in H.
  - by left.
  - right. apply frontier_superset, seed_frontier.
  - right. by apply frontier_superset, (loop_head_inv N d sdo cb start_url).
  - right. apply (within_shape c q Hw).
    by apply (loop_head_inv N d sdo cb start_url).
  - destruct (left_attrs _ _ _ _ _ _ _ Ho)
      as [->|[->|[(c & Hh & _ & A)|(c & Hh & Hc & Hr)]]].
    + by left.
    + right. apply frontier_superset, seed_frontier.
    + right. apply (superset_attrs _ _ A), frontier_superset.
      by apply (loop_head_inv N d sdo cb start_url).
    + right. apply (within_shape c (final o)).
      * by apply (raising_within c ValueError).
      * by apply (loop_head_inv N d sdo cb start_url).
Qed.

(** X16. At every point of a session but the one between the assignment
    of the queue and [found_links.add(start_url)], the visited URLs are
    among the found ones, and so is every URL in the queue. *)
Theorem discovered_superset N d sdo cb start_url p :
  point N d sdo cb start_url p →
  p ≠ queued (init N d sdo cb) start_url →
  visited_urls p ⊆ found_links p
  ∧ ∀ u, u ∈ url_queue p → u ∈ found_links p.
Proof.
  intros [->|H]%superset_points Hne; [done|exact H].
Qed.

(** *** The order of the visits *)

(** In a session the turn of the loop fetches the head of the queue, and
    what it finds goes behind what was waiting. *)
Lemma iteration_fifo c c' :
  frontier_ok c → iteration c c' →
  ∃ u rest news,
    url_queue c = u :: rest
    ∧ fetched_urls (trace c') = fetched_urls (trace c) ++ [u]
    ∧ url_queue c' = rest ++ news.
Proof.
  intros (_ & _ & _ & Hqv)
    [u rest Hq Hv|u rest c1 c2 Hq Hv H1 Hfl H2
    |u rest c1 html links c4 n c5 Hq Hv H1 Hf Hh He Ho H2].
  - exfalso. apply (Hqv u); [rewrite Hq; by left|done].
  - exists u, rest, []. split; [done|].
    apply update_progress_fetched in H1 as T1.
    apply update_progress_fetched in H2 as T2.
    apply update_progress_attrs, attrs_eq in H1 as (_&_&_&_&_&E1&_).
    apply update_progress_attrs, attrs_eq in H2 as (_&_&_&_&_&E2&_).
    rewrite fetched_emit in T2. simpl in *. rewrite app_nil_r.
    split; congruence.
  - apply update_progress_fetched in H1 as T1.
    apply update_progress_fetched in H2 as T2.
    apply update_progress_attrs, attrs_eq in H1 as (_&_&_&_&_&E1&_).
    apply update_progress_attrs, attrs_eq in H2 as (_&_&_&_&_&E2&_).
    set (c3 := mark_visited u html (emit (Fetch u) c1)) in *.
    destruct (offers_queue links (c3, 0))
      as (news & E & _).
    pose proof (offers_fixed links (c3, 0)) as F.
    rewrite Ho in E, F. simpl in E, F. destruct F as (_&_&_&_&_&_&T4).
    exists u, rest, news. split; [done|].
    assert (fetched_urls (trace c5) = fetched_urls (trace c) ++ [u]) as T5.
    { rewrite T2, T4. simpl. unfold fetched_urls in *.
      rewrite omap_app. simpl. by rewrite T1. }
    assert (url_queue c5 = rest ++ news) as Q5.
    { rewrite E2, E. simpl. by rewrite E1. }
    destruct (0 <? delay c5)%Z; [|done].
    rewrite fetched_emit, app_nil_r. done.
Qed.

Lemma head_cond N d sdo cb start_url c pages u rest found :
  loop_head N d sdo cb start_url c →
  session_state c pages (u :: rest) found →
  (Z.of_nat (length pages) < N)%Z →
  loop_cond c = true.
Proof.
  intros Hh (Ek & Ev & _ & Eq & _) Hlt.
  destruct (loop_head_inv _ _ _ _ _ _ Hh) as (_ & [Hnd _] & Em & _).
  unfold loop_cond. rewrite Eq, Em, Ev. simpl.
  rewrite size_list_to_set by (by rewrite <- Ek). by apply Z.ltb_lt.
Qed.

Lemma while_loop_step fuel c c' :
  loop_cond c = true → loop_body c = Returned c' →
  while_loop (S fuel) c = while_loop fuel c'.
Proof. intros Hc Hb. simpl. by rewrite Hc, Hb. Qed.

Lemma while_loop_done fuel c :
  loop_cond c = false → while_loop fuel c = Some (Returned c).
Proof. intros Hc. destruct fuel; simpl; by rewrite Hc. Qed.

Lemma first_head N d sdo cb start_url domain cs :
  get_domain start_url = inr domain →
  update_progress (seeded (init N d sdo cb) start_url) MsgStarting
    (Some start_url) 0 = Returned cs →
  loop_head N d sdo cb start_url cs
  ∧ session_state cs [] [start_url] (∅ ∪ {[ start_url ]}).
Proof.
  intros Hdom Hs.
  split; [split; [by exists domain|exists cs; split; [done|apply reach_refl]]|].
  apply update_progress_fetched in Hs as T.
  apply update_progress_attrs, attrs_eq in Hs as (_&_&_&V&C&Q&F&_).
  unfold session_state. rewrite V, C, Q, F, T. done.
Qed.

(** *** Failed fetches *)

Lemma truthy_failed c u :
  truthy (scrape_single_page scrape_website c u).1
  = negb (failed (scrape_website (trace c) u)).
Proof.
  unfold scrape_single_page. by destruct (scrape_website (trace c) u).
Qed.

(** The turn of the loop on a page whose fetch fails. *)
Lemma fail_turn c u rest c1 :
  loop_cond c = true →
  url_queue c = u :: rest →
  u ∉ visited_urls c →
  update_progress (set_url_queue rest c) MsgScraping (Some u) 0
    = Returned c1 →
  failed (scrape_website (trace c1) u) = true →
  ∃ c', update_progress (emit (Fetch u) c1) MsgFailed (Some u) 0
          = Returned c'
    ∧ loop_body c = Returned c'
    ∧ attrs c' = attrs (set_url_queue rest c)
    ∧ ((progress_callback c = false ∧ trace c' = trace c1 ++ [Fetch u])
       ∨ (progress_callback c = true
          ∧ ∃ pd, trace c' = trace c1 ++ [Fetch u; Progress pd]
                  ∧ pd_message pd = MsgFailed
                  ∧ pd_current_url pd = Some u)).
Proof.
  intros Hc Hq Hv H1 Hf.
  pose proof (loop_cond_max_pages c Hc) as Hn.
  pose proof (update_progress_attrs _ _ _ _ _ H1) as A1.
  pose proof A1 as (Em&_&_&_&_&_&_&Ecb)%attrs_eq. simpl in Em, Ecb.
  assert (∀ c2, update_progress (emit (Fetch u) c1) MsgFailed (Some u) 0
                = Returned c2 → loop_body c = Returned c2) as Hb.
  { intros c2 H2. apply iteration_loop_body.
    eapply iter_fail; try done. by rewrite truthy_failed, Hf. }
  destruct (update_progress_cases (emit (Fetch u) c1) MsgFailed (Some u) 0)
    as [[Hcb E]|[(_ & E0 & _)|(Hcb & _ & pd & E & Hm & Hu)]];
    simpl in *; [|congruence|].
  - exists (emit (Fetch u) c1). split; [done|].
    split; [by apply Hb|]. split; [done|].
    left. split; [congruence|done].
  - exists (emit (Progress pd) (emit (Fetch u) c1)). split; [done|].
    split; [by apply Hb|]. split; [done|].
    right. split; [congruence|]. exists pd. simpl.
    by rewrite <- app_assoc.
Qed.



(** *** The loop runs along one path *)






(** *** What a turn of the loop adds *)

(** In a session, the turn of the loop from [c] fetches the head of the
    queue and queues new links behind the rest; then either nothing is
    visited or stored and there is no sleep, or the page the fetcher
    returned is stored last and there is one sleep when [delay] is
    positive. *)
Lemma iteration_shape c c' :
  frontier_ok c → content_ok c → iteration c c' →
  ∃ u rest news,
    url_queue c = u :: rest
    ∧ fetched_urls (trace c') = fetched_urls (trace c) ++ [u]
    ∧ url_queue c' = rest ++ news
    ∧ (∀ x, x ∈ news → x ∉ found_links c)
    ∧ found_links c ⊆ found_links c'
    ∧ ((visited_urls c' = visited_urls c
        ∧ scraped_content c' = scraped_content c
        ∧ fetches_and_sleeps (trace c')
          = fetches_and_sleeps (trace c) ++ [Fetch u])
       ∨ (∃ c1 html,
            scrape_website (trace c1) u = FetchReturned html
            ∧ html ≠ ""
            ∧ visited_urls c' = visited_urls c ∪ {[ u ]}
            ∧ scraped_content c' = scraped_content c ++ [(u, html)]
            ∧ fetches_and_sleeps (trace c')
              = fetches_and_sleeps (trace c)
                ++ Fetch u ::
                   (if (0 <? delay c)%Z then [Sleep (delay c)] else []))).
Proof.
  intros Hfr [_ Hk] Hi. pose proof Hfr as (_ & _ & _ & Hqv).
  destruct Hi as [u rest Hq Hv|u rest c1 c2 Hq Hv H1 Hfl H2
                 |u rest c1 html links c4 n c5 Hq Hv H1 Hf Hh He Ho H2].
  - exfalso. apply (Hqv u); [rewrite Hq; by left|done].
  - exists u, rest, []. split; [done|].
    apply update_progress_fetched in H1 as T1.
    apply update_progress_fetched in H2 as T2.
    apply update_progress_fetches_and_sleeps in H1 as Z1.
    apply update_progress_fetches_and_sleeps in H2 as Z2.
    apply update_progress_attrs, attrs_eq in H1 as (_&_&_&V1&S1&Q1&F1&_).
    apply update_progress_attrs, attrs_eq in H2 as (_&_&_&V2&S2&Q2&F2&_).
    rewrite fetched_emit in T2. rewrite fetches_and_sleeps_emit in Z2.
    simpl in *. rewrite !app_nil_r in *.
    split; [congruence|]. split; [congruence|].
    split; [intros x Hx; by apply elem_of_nil in Hx|].
    split; [by rewrite F2, F1|].
    left. repeat split; congruence.
  - apply update_progress_fetched in H1 as T1.
    apply update_progress_fetched in H2 as T2.
    apply update_progress_fetches_and_sleeps in H1 as Z1.
    apply update_progress_fetches_and_sleeps in H2 as Z2.
    apply update_progress_attrs, attrs_eq in H1 as (_&D1&_&V1&S1&Q1&F1&_).
    apply update_progress_attrs, attrs_eq in H2 as (_&D5&_&V5&S5&Q5&F5&_).
    set (c3 := mark_visited u html (emit (Fetch u) c1)) in *.
    destruct (offers_queue_new links (c3, 0))
      as (news & E & Hn).
    pose proof (offers_found_mono links (c3, 0)) as Hm.
    pose proof (offers_fixed links (c3, 0)) as F.
    rewrite Ho in E, Hm, F.
    destruct F as (_&D4&_&V4&S4&_&T4).
    change (found_links (c3, 0).1) with (found_links c1) in Hm, Hn.
    change (url_queue (c3, 0).1) with (url_queue c1) in E.
    change (delay (c3, 0).1) with (delay c1) in D4.
    change (visited_urls (c3, 0).1) with (visited_urls c1 ∪ {[ u ]}) in V4.
    change (scraped_content (c3, 0).1)
      with (dict_set u html (scraped_content c1)) in S4.
    change (trace (c3, 0).1) with (trace (emit (Fetch u) c1)) in T4.
    change ((c4, n).1) with c4 in *.
    simpl in V1, S1, Q1, F1, D1.
    exists u, rest, news. split; [done|].
    assert (fetched_urls (trace c5) = fetched_urls (trace c) ++ [u]) as T5.
    { rewrite T2, T4, fetched_emit, T1. done. }
    assert (fetches_and_sleeps (trace c5)
            = fetches_and_sleeps (trace c) ++ [Fetch u]) as Z5.
    { by rewrite Z2, T4, fetches_and_sleeps_emit, Z1. }
    assert (url_queue c5 = rest ++ news) as Q5'.
    { by rewrite Q5, E, Q1. }
    assert (scraped_content c5 = scraped_content c ++ [(u, html)]) as S5'.
    { rewrite S5, S4, S1. apply dict_set_new. by rewrite Hk. }
    assert (visited_urls c5 = visited_urls c ∪ {[ u ]}) as V5'.
    { by rewrite V5, V4, V1. }
    assert (found_links c ⊆ found_links c5) as F5'.
    { rewrite F5. rewrite <- F1. done. }
    assert (∀ x, x ∈ news → x ∉ found_links c) as Hn'.
    { intros x Hx. rewrite <- F1. by apply Hn. }
    assert (delay c5 = delay c) as D5' by congruence.
    rewrite D5'.
    destruct (0 <? delay c)%Z.
    + rewrite fetched_emit, fetches_and_sleeps_emit, app_nil_r. simpl.
      repeat split; try done. right. exists c1, html.
      rewrite Z5, <- app_assoc. done.
    + repeat split; try done. right. exists c1, html.
      rewrite Z5. done.
Qed.

Lemma iteration_reports N c c' :
  frontier_ok c → loop_cond c = true → max_pages c = N →
  Forall (report_ok N) (trace c) →
  iteration c c' →
  Forall (report_ok N) (trace c').
Proof.
  intros Hfr [_ Hlt]%loop_cond_true Hm Ht Hi.
  destruct Hi as [u rest Hq Hv|u rest c1 c2 Hq Hv H1 Hfl H2
                 |u rest c1 html links c4 n c5 Hq Hv H1 Hf Hh He Ho H2]; [done|..].
  - pose proof (update_progress_attrs _ _ _ _ _ H1) as A1.
    destruct (frontier_popleft c u rest Hfr Hq) as (Hfp & _).
    apply (update_progress_report N) in H1; [|done|simpl; lia|done..].
    apply (update_progress_report N) in H2; [done|..].
    + by apply (frontier_attrs (set_url_queue rest c)).
    + apply attrs_eq in A1 as (_&_&_&V1&_). simpl in *. rewrite V1. lia.
    + apply attrs_eq in A1 as (M1&_). simpl in *. congruence.
    + simpl. apply Forall_app. split; [done|]. by apply Forall_singleton.
  - pose proof (update_progress_attrs _ _ _ _ _ H1) as A1.
    destruct (frontier_popleft c u rest Hfr Hq) as (Hfp & _).
    apply (update_progress_report N) in H1; [|done|simpl; lia|done..].
    set (c3 := mark_visited u html (emit (Fetch u) c1)) in *.
    pose proof (offers_fixed links (c3, 0)) as F.
    pose proof (offers_frontier links (c3, 0)) as G.
    rewrite Ho in F, G. destruct F as (M4&_&_&V4&_&_&T4).
    change (max_pages (c3, 0).1) with (max_pages c1) in M4.
    change (visited_urls (c3, 0).1) with (visited_urls c1 ∪ {[ u ]}) in V4.
    change (trace (c3, 0).1) with (trace c1 ++ [Fetch u]) in T4.
    change ((c4, n).1) with c4 in *.
    pose proof A1 as (M1&_&_&V1&_)%attrs_eq. simpl in M1, V1.
    assert (Forall (report_ok N) (trace c5)) as H5.
    { apply (update_progress_report N) in H2; [done|..].
      - apply G. by apply (frontier_mark c u rest html (emit (Fetch u) c1)
                             Hfr Hq).
      - rewrite V4, V1, size_union, size_singleton by set_solver. lia.
      - congruence.
      - rewrite T4. apply Forall_app. split; [done|].
        by apply Forall_singleton. }
    destruct (0 <? delay c5)%Z; [|done]. simpl.
    apply Forall_app. split; [done|]. by apply Forall_singleton.
Qed.

Lemma raising_reports N c e c' :
  frontier_ok c → loop_cond c = true → max_pages c = N →
  Forall (report_ok N) (trace c) →
  raising c e c' →
  Forall (report_ok N) (trace c').
Proof.
  intros Hfr [_ Hlt]%loop_cond_true Hm Ht
    (u & rest & c1 & html & (Hq & Hv & H1 & _) & _ & ->).
  destruct (frontier_popleft c u rest Hfr Hq) as (Hfp & _).
  apply (update_progress_report N) in H1; [|done|simpl; lia|done..].
  simpl. apply Forall_app. split; [done|]. by apply Forall_singleton.
Qed.

(** *** The history of a session *)

Lemma loop_head_history N d sdo cb start_url c :
  loop_head N d sdo cb start_url c →
  NoDup (discovery_order c)
  ∧ (∀ u, u ∈ fetched_urls (trace c) → u ∈ found_links c)
  ∧ (scraped_content c).*1 `sublist_of` fetched_urls (trace c)
  ∧ Forall (λ kv, kv.2 ≠ "" ∧ ∃ t, scrape_website t kv.1 = FetchReturned kv.2)
      (scraped_content c)
  ∧ fetches_and_sleeps (trace c)
    = paced d (scraped_content c).*1 (fetched_urls (trace c))
  ∧ ((0 ≤ N)%Z → Forall (report_ok N) (trace c)).
Proof.
  intros Hh. pose proof Hh as ([domain Hdom] & cs & Hs & Hr).
  destruct (first_head _ _ _ _ _ _ _ Hdom Hs) as [Hh0 (K0&V0&T0&Q0&F0)].
  assert (loop_head N d sdo cb start_url c ∧
    (NoDup (discovery_order c)
     ∧ (∀ u, u ∈ fetched_urls (trace c) → u ∈ found_links c)
     ∧ (scraped_content c).*1 `sublist_of` fetched_urls (trace c)
     ∧ Forall (λ kv, kv.2 ≠ ""
                     ∧ ∃ t, scrape_website t kv.1 = FetchReturned kv.2)
         (scraped_content c)
     ∧ fetches_and_sleeps (trace c)
       = paced d (scraped_content c).*1 (fetched_urls (trace c))
     ∧ ((0 ≤ N)%Z → Forall (report_ok N) (trace c)))) as [_ G]; [|done].
  clear Hh. induction Hr as [|c' c'' Hr IH Hc Hb].
  - split; [done|].
    assert (scraped_content cs = []) as S0
      by (by destruct (scraped_content cs)).
    unfold discovery_order. rewrite T0, Q0, S0. simpl.
    split; [apply NoDup_singleton|].
    split; [intros u Hu; by apply elem_of_nil in Hu|].
    split; [done|]. split; [done|].
    split.
    + apply update_progress_fetches_and_sleeps in Hs. by rewrite Hs.
    + intros HN. apply (update_progress_report N) in Hs; [done|..].
      * apply seed_frontier.
      * rewrite seed_visited. lia.
      * done.
      * done.
  - destruct IH as [Hh' (Hnd & Hfo & Hsub & Hall & Hsl & Hrep)].
    pose proof (loop_head_step _ _ _ _ _ _ _ Hh' Hc Hb) as Hh''.
    split; [done|].
    destruct (loop_head_inv _ _ _ _ _ _ Hh') as (Hfr & Hco & Em & Ed & _).
    destruct (loop_head_inv _ _ _ _ _ _ Hh'') as (Hfr' & _).
    pose proof (loop_body_returned c' c'' Hc Hb) as Hi.
    destruct (iteration_shape c' c'' Hfr Hco Hi)
      as (u & rest & news & Eq & Et & Eq' & Hnew & Hmono & Hcase).
    pose proof Hfr as (_ & Hqf & _ & Hqv).
    pose proof Hfr' as (_ & _ & Hndq & _).
    unfold discovery_order in *. rewrite Eq in Hnd. rewrite Eq' in Hndq.
    apply NoDup_app in Hnd as (HndA & Hdis & Hndu).
    apply NoDup_cons in Hndu as [Hur _].
    assert (u ∈ found_links c') as Huf by (apply Hqf; rewrite Eq; by left).
    assert (u ∉ fetched_urls (trace c')) as Hunf.
    { intros Hx. apply (Hdis u Hx). by left. }
    assert (u ∉ (scraped_content c').*1) as Hunk.
    { destruct Hco as [_ Hk]. rewrite Hk. apply Hqv. rewrite Eq. by left. }
    split; [|split; [|split; [|split; [|split]]]].
    + rewrite Et, Eq'. apply NoDup_app. split; [|split; [|done]].
      * apply NoDup_app. split; [done|]. split; [|apply NoDup_singleton].
        intros x Hx ->%list_elem_of_singleton. apply (Hdis u Hx). by left.
      * intros x [Hx|Hx%list_elem_of_singleton]%elem_of_app
                 [Hy|Hy]%elem_of_app; subst.
        -- apply (Hdis x Hx). by right.
        -- by apply (Hnew x Hy), Hfo.
        -- done.
        -- by apply (Hnew u Hy).
    + rewrite Et. intros x [Hx|Hx%list_elem_of_singleton]%elem_of_app;
        apply Hmono; [by apply Hfo|by subst].
    + rewrite Et.
      destruct Hcase as [(_ & -> & _)|(c1 & html & _ & _ & _ & -> & _)].
      * by apply sublist_inserts_r.
      * rewrite fmap_app. by apply sublist_app.
    + destruct Hcase as [(_ & -> & _)|(c1 & html & Hf & Hne & _ & -> & _)];
        [done|].
      apply Forall_app. split; [done|]. apply Forall_singleton.
      split; [done|]. by exists (trace c1).
    + rewrite Et, paced_snoc.
      destruct Hcase as [(_ & -> & ->)|(c1 & html & _ & _ & _ & -> & ->)].
      * rewrite Hsl, bool_decide_eq_false_2 by done. done.
      * rewrite fmap_app. change ([(u, html)].*1) with [u].
        rewrite (paced_stored d _ _ u Hunf), Hsl, Ed.
        rewrite bool_decide_eq_true_2; [done|].
        apply elem_of_app. right. by left.
    + intros HN. by apply (iteration_reports N c' c'' Hfr Hc Em (Hrep HN)).
Qed.

(** What a session has done when [crawl_website] is left, by [return] or
    by an exception. *)
Lemma left_history fuel N d sdo cb start_url o :
  crawl_website fuel (init N d sdo cb) start_url = Some o →
  NoDup (discovery_order (final o))
  ∧ (scraped_content (final o)).*1 `sublist_of` fetched_urls (trace (final o))
  ∧ Forall (λ kv, kv.2 ≠ "" ∧ ∃ t, scrape_website t kv.1 = FetchReturned kv.2)
      (scraped_content (final o))
  ∧ ((0 ≤ N)%Z → Forall (report_ok N) (trace (final o)))
  ∧ (o ≠ Raised ValueError (final o) →
     fetches_and_sleeps (trace (final o))
     = paced d (scraped_content (final o)).*1
         (fetched_urls (trace (final o)))).
Proof.
  intros [(_ & ->)|[(_ & _ & _ & ->)|[(c & cf & Hh & Hc & -> & Hu)
         |(c & cr & Hh & Hc & Hr & ->)]]]%crawl_website_cases.
  - simpl. split; [apply NoDup_singleton|]. split; [done|].
    split; [apply Forall_nil_2|]. split; [intros _; apply Forall_nil_2|done].
  - simpl. split; [apply NoDup_singleton|]. split; [done|].
    split; [apply Forall_nil_2|]. split; [intros _; apply Forall_nil_2|done].
  - destruct (loop_head_history _ _ _ _ _ _ Hh)
      as (Hnd & _ & Hsub & Hall & Hsl & Hrep).
    pose proof (update_progress_fetched _ _ _ _ _ Hu) as T.
    pose proof (update_progress_fetches_and_sleeps _ _ _ _ _ Hu) as Z.
    pose proof (update_progress_attrs _ _ _ _ _ Hu) as A.
    apply attrs_eq in A as (_&_&_&_&S&Q&_).
    simpl. unfold discovery_order. rewrite T, Z, S, Q.
    split; [done|]. split; [done|]. split; [done|]. split; [|done].
    intros HN.
    destruct (loop_head_inv _ _ _ _ _ _ Hh) as (Hfr & _ & Em & _).
    apply (update_progress_report N) in Hu; [done..| |done|by apply Hrep].
    rewrite <- Em. by apply (loop_head_budget N d sdo cb start_url).
  - destruct (loop_head_history _ _ _ _ _ _ Hh)
      as (Hnd & _ & Hsub & Hall & _ & Hrep).
    destruct (loop_head_inv _ _ _ _ _ _ Hh) as (Hfr & Hco & Em & _).
    destruct (raising_shape c ValueError cr Hfr Hco Hr)
      as (u & rest & c1 & html & (Hq & _ & _ & Hs & Hne) & _ & _ & _ & _ & _
          & _ & S & Q & _ & T & _ & _ & _ & _).
    simpl. unfold discovery_order in *. rewrite T, S, Q, fmap_app.
    change ([(u, html)].*1) with [u].
    split; [rewrite Hq in Hnd; by rewrite <- app_assoc|].
    split; [by apply sublist_app|].
    split.
    { apply Forall_app. split; [done|]. apply Forall_singleton.
      split; [done|]. by exists (trace c1). }
    split; [|done].
    intros HN. by apply (raising_reports N c ValueError cr Hfr Hc Em (Hrep HN)).
Qed.

(** X1. No URL is fetched twice in a session, whether its fetch succeeded
    or failed, and no URL that was fetched is waiting in the queue. *)
Theorem no_url_fetched_twice fuel N d sdo cb start_url o :
  crawl_website fuel (init N d sdo cb) start_url = Some o →
  NoDup (fetched_urls (trace (final o)) ++ url_queue (final o)).
Proof. intros Ho. by apply (left_history fuel N d sdo cb start_url). Qed.

(** X2. The pages that [crawl_website] returns are pages that were fetched,
    in the order of their fetches; each is stored with the markup the
    fetcher returned for its URL, and none is empty. *)
Theorem stored_pages_were_fetched fuel N d sdo cb start_url o :
  crawl_website fuel (init N d sdo cb) start_url = Some o →
  (scraped_content (final o)).*1 `sublist_of` fetched_urls (trace (final o))
  ∧ Forall (λ kv, kv.2 ≠ "" ∧ ∃ t, scrape_website t kv.1 = FetchReturned kv.2)
      (scraped_content (final o)).
Proof.
  intros Ho.
  destruct (left_history fuel N d sdo cb start_url o Ho) as (_ & ? & ? & _).
  done.
Qed.



(** X5. Every progress report a session makes is consistent: it names the
    budget of the crawler, its count of visited pages is within the
    budget, and its counts of visited and of waiting URLs together are
    within its count of found links. *)
Theorem progress_reports_consistent fuel N d sdo cb start_url o :
  (0 ≤ N)%Z →
  crawl_website fuel (init N d sdo cb) start_url = Some o →
  Forall (report_ok N) (trace (final o)).
Proof.
  intros HN Ho. by apply (left_history fuel N d sdo cb start_url).
Qed.

(** *** A crawler used again *)

Lemma crawl_website_parsed fuel c start_url domain :
  get_domain start_url = inr domain →
  crawl_website fuel c start_url
  = match update_progress (seeded c start_url) MsgStarting (Some start_url) 0
    with
    | Raised e self => Some (Raised e self)
    | Returned self =>
        match while_loop fuel self with
        | None => None
        | Some (Raised e self) => Some (Raised e self)
        | Some (Returned self) =>
            Some (update_progress self
                    (MsgCompleted (size (visited_urls self))
                                  (size (found_links self))) None 0)
        end
    end.
Proof. intros H. unfold crawl_website, seed. by rewrite H. Qed.

(** X6. [crawl_website] keeps the visited URLs and the stored pages that
    the crawler holds from earlier calls, and puts the start URL in
    place of what was waiting in the queue.  Called with a start URL
    that [urlparse] accepts on a crawler that has visited it, or that
    has used up its budget, it fetches nothing, does not sleep, and
    returns the mapping as it was; the start URL is among the found
    links, and the queue is left empty, or holding the start URL alone
    when the budget is used up. *)
Theorem recrawl_fetches_nothing c start_url fuel :
  (∃ domain, get_domain start_url = inr domain) →
  start_url ∈ visited_urls c
  ∨ (max_pages c ≤ Z.of_nat (size (visited_urls c)))%Z →
  progress_callback c = false ∨ max_pages c ≠ 0%Z →
  ∃ c',
    crawl_website (S fuel) c start_url = Some (Returned c')
    ∧ visited_urls c' = visited_urls c
    ∧ scraped_content c' = scraped_content c
    ∧ found_links c' = found_links c ∪ {[ start_url ]}
    ∧ url_queue c'
      = (if (Z.of_nat (size (visited_urls c)) <? max_pages c)%Z
         then [] else [start_url])
    ∧ fetched_urls (trace c') = fetched_urls (trace c)
    ∧ slept (trace c') = slept (trace c).
Proof.
  intros [domain Hdom] Hdone Hret.
  destruct (update_progress_returns_if (seeded c start_url) MsgStarting
              (Some start_url) 0 Hret) as [cs Hs].
  pose proof (update_progress_fetched _ _ _ _ _ Hs) as Ts.
  pose proof (update_progress_slept _ _ _ _ _ Hs) as Zs.
  pose proof (update_progress_attrs _ _ _ _ _ Hs) as As.
  pose proof As as (Ms&_&_&Vs&Ss&Qs&Fs&Cs)%attrs_eq. simpl in *.
  assert (loop_cond cs
          = (Z.of_nat (size (visited_urls c)) <? max_pages c)%Z) as Ec.
  { unfold loop_cond. by rewrite Qs, Vs, Ms. }
  assert (∃ ce, while_loop (S fuel) cs = Some (Returned ce)
                ∧ max_pages ce = max_pages c
                ∧ progress_callback ce = progress_callback c
                ∧ visited_urls ce = visited_urls c
                ∧ scraped_content ce = scraped_content c
                ∧ found_links ce = found_links c ∪ {[ start_url ]}
                ∧ url_queue ce
                  = (if loop_cond cs then [] else [start_url])
                ∧ trace ce = trace cs)
    as (ce & Hw & M & C & V & S & F & Q & T).
  { destruct (loop_cond cs) eqn:Hc.
    - destruct Hdone as [Hv|Hb].
      + exists (set_url_queue [] cs).
        assert (loop_body cs = Returned (set_url_queue [] cs)) as Hb.
        { apply iteration_loop_body.
          eapply iter_skip; [exact Qs|by rewrite Vs]. }
        rewrite (while_loop_step _ _ _ Hc Hb).
        split; [by apply while_loop_done|done].
      + apply loop_cond_true in Hc as [_ Hlt]. rewrite Ms, Vs in Hlt. lia.
    - exists cs. split; [by apply while_loop_done|done]. }
  destruct (update_progress_returns_if ce
              (MsgCompleted (size (visited_urls ce))
                 (size (found_links ce))) None 0) as [cf Hu].
  { destruct Hret; [left|right]; congruence. }
  exists cf. split.
  { rewrite (crawl_website_parsed _ _ _ _ Hdom), Hs, Hw. by rewrite Hu. }
  pose proof (update_progress_fetched _ _ _ _ _ Hu) as Tf.
  pose proof (update_progress_slept _ _ _ _ _ Hu) as Zf.
  apply update_progress_attrs, attrs_eq in Hu as (_&_&_&Vf&Sf&Qf&Ff&_).
  rewrite Vf, Sf, Ff, Qf, Tf, Zf, T, Q, Ec. repeat split; congruence.
Qed.

(** *** Statistics *)

(** X8. On a crawler made with [max_pages = 0] and no callback, a session
    from a start URL that [urlparse] accepts runs to the end and
    returns, and [get_crawl_stats] called on the crawler afterwards
    raises [ZeroDivisionError]. *)
Theorem stats_divide_by_zero d sdo start_url :
  (∃ domain, get_domain start_url = inr domain) →
  ∃ cf,
    (∀ fuel, crawl_website fuel (init 0 d sdo false) start_url
             = Some (Returned cf))
    ∧ scraped_content cf = []
    ∧ get_crawl_stats list_of_set cf = inl ZeroDivisionError.
Proof.
  intros [domain Hdom].
  exists (seeded (init 0 d sdo false) start_url).
  split; [|done]. intros fuel.
  rewrite (crawl_website_parsed _ _ _ _ Hdom).
  assert (update_progress (seeded (init 0 d sdo false) start_url) MsgStarting
            (Some start_url) 0
          = Returned (seeded (init 0 d sdo false) start_url)) as Hs
    by reflexivity.
  rewrite Hs, while_loop_done; [reflexivity|].
  unfold loop_cond. rewrite seed_visited. apply andb_false_r.
Qed.

(** *** Sessions that raise *)


Section Scoped.

(** Iterating over a set yields each of its elements once, in some
    order. *)
Hypothesis list_of_set_perm : ∀ X, list_of_set X ≡ₚ elements X.

(** *** The links of a page *)

Lemma collect_links_spec c base bd hrefs acc links x :
  collect_links c base bd hrefs acc = inr links →
  x ∈ links ↔
  x ∈ acc ∨ ((∃ href, href ∈ hrefs ∧ urljoin base href = Some x)
             ∧ is_valid_url c x bd = inr true).
Proof.
  revert acc. induction hrefs as [|h hrefs IH]; intros acc; simpl.
  - intros [= <-]. split; [by left|]. intros [?|[(?&H&_) _]]; [done|].
    by apply elem_of_nil in H.
  - destruct (urljoin base h) as [y|] eqn:Ey; [|done].
    destruct (is_valid_url c y bd) as [e|valid] eqn:Ev; [done|].
    intros H. rewrite (IH _ H). clear IH H. destruct valid.
    + rewrite elem_of_union, elem_of_singleton. split.
      * intros [[?| ->]|[(href & Hin & E) Hv]]; [by left|..].
        -- right. split; [|done]. exists h. split; [by left|done].
        -- right. split; [|done]. exists href. split; [by right|done].
      * intros [?|[(href & Hin & E) Hv]]; [by left; left|].
        apply elem_of_cons in Hin as [-> |Hin].
        -- left. right. congruence.
        -- right. split; [|done]. by exists href.
    + split.
      * intros [?|[(href & Hin & E) Hv]]; [by left|].
        right. split; [|done]. exists href. split; [by right|done].
      * intros [?|[(href & Hin & E) Hv]]; [by left|].
        apply elem_of_cons in Hin as [-> |Hin]; [congruence|].
        right. split; [|done]. by exists href.
Qed.

(** What [extract_links] returns, when it returns: each once, the hrefs
    of the page, resolved, that pass the filter with the domain of the
    page. *)
Lemma extract_links_spec c html base links :
  extract_links c html base = inr links →
  ∃ base_domain,
    get_domain base = inr base_domain
    ∧ NoDup links
    ∧ ∀ x, x ∈ links ↔
           (∃ href, href ∈ find_all_a_href html ∧ urljoin base href = Some x)
           ∧ is_valid_url c x base_domain = inr true.
Proof.
  unfold extract_links.
  destruct (get_domain base) as [e|bd]; [done|].
  destruct (collect_links c base bd (find_all_a_href html) ∅)
    as [e|set] eqn:E; [done|].
  intros [= <-]. exists bd. split; [done|]. split.
  - rewrite list_of_set_perm. apply NoDup_elements.
  - intros x. rewrite list_of_set_perm, elem_of_elements.
    rewrite (collect_links_spec c base bd _ _ _ x E).
    split; [intros [H|H]; [set_solver|done]|by right].
Qed.

Lemma resolved_hrefs_spec html base x :
  x ∈ resolved_hrefs html base ↔
  ∃ href, href ∈ find_all_a_href html ∧ urljoin base href = Some x.
Proof. unfold resolved_hrefs. by rewrite list_elem_of_omap. Qed.

Lemma iteration_anchored start_url c c' :
  anchored start_url c → iteration c c' → anchored start_url c'.
Proof.
  intros Ha Hi Hs.
  destruct (iteration_fixed c c' Hi) as (_ & _ & Es & _).
  rewrite Es in Hs. specialize (Ha Hs).
  destruct Hi as [u rest Hq Hv|u rest c1 c2 Hq Hv H1 Hfl H2
                 |u rest c1 html links c4 n c5 Hq Hv H1 Hf Hh He Ho H2].
  - simpl. intros x Hx. apply Ha. rewrite Hq. by right.
  - apply update_progress_attrs, attrs_eq in H1 as (_&_&_&_&_&E1&_).
    apply update_progress_attrs, attrs_eq in H2 as (_&_&_&_&_&E2&_).
    simpl in *. intros x Hx. apply Ha. rewrite Hq. right. congruence.
  - apply update_progress_attrs, attrs_eq in H1 as (_&_&S1&_&_&E1&_).
    apply update_progress_attrs, attrs_eq in H2 as (_&_&_&_&_&E2&_).
    simpl in *.
    set (c3 := mark_visited u html (emit (Fetch u) c1)) in *.
    destruct (offers_queue links (c3, 0)) as (news & E & Hn).
    rewrite Ho in E. simpl in E.
    destruct (extract_links_spec c3 html u links He) as (bd & Hbd & _ & Hl).
    assert (∀ x, x ∈ url_queue c5 → get_domain x = get_domain start_url)
      as G.
    { intros x. rewrite E2, E, E1. intros [Hx|Hx]%elem_of_app.
      - apply Ha. rewrite Hq. by right.
      - apply Hn, Hl in Hx as [_ Hx].
        apply is_valid_url_domain in Hx; [|simpl; congruence].
        rewrite Hx, <- Hbd. apply Ha. rewrite Hq. by left. }
    by destruct (0 <? delay c5)%Z.
Qed.

Lemma loop_head_anchored N d sdo cb start_url c :
  loop_head N d sdo cb start_url c → anchored start_url c.
Proof.
  intros (_ & cs & Hs & Hr). revert c Hr. apply reach_iteration_ind.
  - apply update_progress_attrs, attrs_eq in Hs as (_&_&Es&_&_&Eq&_).
    intros _ u. rewrite Eq. simpl.
    by intros ->%list_elem_of_singleton.
  - intros c1 c2 Ha _ Hi. by eapply iteration_anchored.
Qed.

(** *** The scope of a session *)

(** C2. For every page a session fetches, the links taken from it are the
    resolved hrefs that pass the filter with the domain of the start URL
    as base domain, whichever page that is.  With [same_domain_only] the
    page and each link taken from it have the netloc of the start URL:
    when the start URL is [scheme://authority...] and a link taken is
    [scheme'://authority'...], the two authorities, and with them the
    hosts, are equal. *)
Theorem links_scoped_to_seed N d sdo cb start_url c u rest c1 html links :
  loop_head N d sdo cb start_url c →
  loop_cond c = true →
  scraping c u rest c1 html →
  extract_links (mark_visited u html (emit (Fetch u) c1)) html u
    = inr links →
  ∃ seed_domain,
    get_domain start_url = inr seed_domain
    ∧ seed_domain = Url.netloc start_url
    ∧ (∀ link,
          link ∈ links ↔
          link ∈ resolved_hrefs html u
          ∧ is_valid_url (init N d sdo cb) link seed_domain = inr true)
    ∧ (sdo = true →
       Url.netloc u = Url.netloc start_url
       ∧ (∀ link, link ∈ links → Url.netloc link = Url.netloc start_url)
       ∧ (∀ scheme0 authority0 rest0 scheme authority rest1,
             Url.wf_scheme scheme0 = true →
             Url.wf_authority authority0 = true →
             Url.wf_rest rest0 = true →
             Url.wf_scheme scheme = true →
             Url.wf_authority authority = true →
             Url.wf_rest rest1 = true →
             start_url = Url.absolute scheme0 authority0 rest0 →
             Url.absolute scheme authority rest1 ∈ links →
             authority = authority0)).
Proof.
  intros Hh Hc (Hq & Hv & H1 & Hs & Hne) He.
  set (c3 := mark_visited u html (emit (Fetch u) c1)) in *.
  pose proof Hh as ([seed_domain Hdom] & _).
  destruct (loop_head_inv _ _ _ _ _ _ Hh) as (_&_&_&_&Esd&_).
  pose proof (loop_head_anchored _ _ _ _ _ _ Hh) as Ha.
  apply update_progress_attrs, attrs_eq in H1 as (_&_&S1&_).
  assert (same_domain_only c3 = sdo) as S3 by (simpl in *; congruence).
  destruct (extract_links_spec c3 html u links He) as (bd & Hbd & _ & Hl).
  assert (Hu : sdo = true → bd = seed_domain).
  { intros ->. specialize (Ha Esd u). rewrite Hq in Ha.
    specialize (Ha ltac:(by left)). congruence. }
  assert (Hnet : sdo = true →
            ∀ link, link ∈ links → Url.netloc link = Url.netloc start_url).
  { intros Hsdo link [_ Hlink]%Hl.
    rewrite (Hu Hsdo) in Hlink.
    apply is_valid_url_domain in Hlink; [|congruence].
    apply get_domain_netloc in Hlink, Hdom. congruence. }
  exists seed_domain. split; [done|].
  split; [by apply get_domain_netloc|]. split.
  - intros link. rewrite Hl, resolved_hrefs_spec.
    rewrite (is_valid_url_config c3 (init N d sdo cb)) by done.
    destruct sdo.
    + by rewrite Hu.
    + by rewrite (is_valid_url_any_domain (init N d false cb) link bd
                    seed_domain).
  - intros Hsdo. split; [|split; [by apply Hnet|]].
    + rewrite (Hu Hsdo) in Hbd.
      apply get_domain_netloc in Hbd, Hdom. congruence.
    + intros s0 a0 r0 s a r Hs0 Ha0 Hr0 Hs' Ha' Hr' -> Hin.
      apply (Hnet Hsdo) in Hin.
      by rewrite !netloc_absolute in Hin.
Qed.

(** *** The link extractor *)

(** A turn of the loop on a page that is fetched, all of whose links are
    new. *)
Lemma success_turn N d sdo cb start_url c pages u rest found html links :
  loop_head N d sdo cb start_url c →
  session_state c pages (u :: rest) found →
  (Z.of_nat (length pages) < N)%Z →
  (∀ t, scrape_website t u = FetchReturned html) →
  html ≠ "" →
  extract_links (init N d sdo cb) html u = inr links →
  (∀ x, x ∈ links → x ∉ found) →
  ∃ c', loop_body c = Returned c'
        ∧ loop_cond c = true
        ∧ session_state c' (pages ++ [u]) (rest ++ links)
            (found ∪ list_to_set links).
Proof.
  intros Hh Hst Hlt Hfetch Hne Hlinks Hnew.
  pose proof (head_cond _ _ _ _ _ _ _ _ _ _ Hh Hst Hlt) as Hc.
  destruct Hst as (Ek & Ev & Et & Eq & Ef).
  destruct (loop_head_inv _ _ _ _ _ _ Hh) as (Hfr & [Hnd Hk] & _ & _ & Es & _).
  assert (Hvu : u ∉ visited_urls c).
  { destruct Hfr as (_&_&_&Hqv). apply Hqv. rewrite Eq. by left. }
  destruct (update_progress_returns (set_url_queue rest c) MsgScraping
              (Some u) 0) as [c1 H1]; [exact (loop_cond_max_pages c Hc)|].
  pose proof (update_progress_fetched _ _ _ _ _ H1) as T1.
  pose proof (update_progress_attrs _ _ _ _ _ H1) as A1.
  pose proof A1 as (M1&_&S1&V1&C1&Q1&F1&_)%attrs_eq.
  set (c3 := mark_visited u html (emit (Fetch u) c1)) in *.
  assert (extract_links c3 html u = inr links) as El.
  { rewrite <- Hlinks. apply extract_links_config. simpl in *. congruence. }
  destruct (extract_links_spec _ _ _ _ El) as (_ & _ & Hndl & _).
  assert (frontier_ok c3) as Hf3.
  { by apply (frontier_mark c u rest html (emit (Fetch u) c1) Hfr Eq). }
  destruct (offers_new links c3 0 Hf3 Hndl) as [Q4 F4].
  { simpl. rewrite F1. simpl. by rewrite Ef. }
  destruct (fold_left offer links (c3, 0)) as [c4 n] eqn:Ho.
  pose proof (offers_fixed links (c3, 0)) as F.
  rewrite Ho in F. simpl in Q4, F4, F.
  destruct F as (M4&_&_&V4&C4&_&T4).
  destruct (update_progress_returns c4 (MsgFound n) (Some u) (length links))
    as [c5 H2].
  { rewrite M4. simpl. rewrite M1. exact (loop_cond_max_pages c Hc). }
  pose proof (update_progress_fetched _ _ _ _ _ H2) as T2.
  pose proof (update_progress_attrs _ _ _ _ _ H2) as A2.
  apply attrs_eq in A2 as (_&_&_&V5&C5&Q5&F5&_).
  eexists. split.
  { apply iteration_loop_body.
    eapply iter_success;
      [exact Eq|exact Hvu|exact H1|apply Hfetch|exact Hne|exact El|exact Ho
      |exact H2]. }
  split; [done|].
  assert (session_state c5 (pages ++ [u]) (rest ++ links)
            (found ∪ list_to_set links)) as H5.
  { unfold session_state. repeat split.
    - rewrite C5, C4. simpl. rewrite C1. simpl.
      rewrite dict_set_keys_new by (rewrite Hk; done). by rewrite Ek.
    - rewrite V5, V4. simpl. rewrite V1. simpl.
      rewrite Ev, list_to_set_app_L. set_solver.
    - rewrite T2, T4.
      transitivity (fetched_urls (trace (emit (Fetch u) c1))); [done|].
      rewrite fetched_emit, T1. simpl. by rewrite Et.
    - rewrite Q5, Q4. simpl. by rewrite Q1.
    - rewrite F5, F4. simpl. rewrite F1. simpl. by rewrite Ef. }
  destruct (0 <? delay c5)%Z; [|done].
  destruct H5 as (?&?&?&?&?). repeat split; try done.
  by rewrite fetched_emit, app_nil_r.
Qed.

(** C4. Pages are visited first in, first out.  In every session the
    discovery order (the URLs fetched, then the URLs waiting) starts
    with the start URL; each turn of the loop fetches the URL at the
    head of the queue and puts what it discovers behind everything
    discovered before.  In particular, when the start page links to [B]
    then [C], [B] links to [D], [C] and [D] link nowhere, every fetch
    succeeds and the budget is at least four pages, the pages are
    fetched and stored in the order start, [B], [C], [D]. *)
Theorem bfs_order N d sdo cb start_url :
  (∀ c, loop_head N d sdo cb start_url c →
        ∃ later, discovery_order c = start_url :: later)
  ∧ (∀ c c',
        loop_head N d sdo cb start_url c →
        loop_cond c = true → loop_body c = Returned c' →
        ∃ u rest news,
          url_queue c = u :: rest
          ∧ fetched_urls (trace c') = fetched_urls (trace c) ++ [u]
          ∧ url_queue c' = rest ++ news
          ∧ discovery_order c' = discovery_order c ++ news)
  ∧ (∀ B C D hs hb hc hd,
        NoDup [start_url; B; C; D] →
        (4 ≤ N)%Z →
        (∀ t, scrape_website t start_url = FetchReturned hs) → hs ≠ "" →
        (∀ t, scrape_website t B = FetchReturned hb) → hb ≠ "" →
        (∀ t, scrape_website t C = FetchReturned hc) → hc ≠ "" →
        (∀ t, scrape_website t D = FetchReturned hd) → hd ≠ "" →
        extract_links (init N d sdo cb) hs start_url = inr [B; C] →
        extract_links (init N d sdo cb) hb B = inr [D] →
        extract_links (init N d sdo cb) hc C = inr [] →
        extract_links (init N d sdo cb) hd D = inr [] →
        ∃ fuel cf,
          crawl_website fuel (init N d sdo cb) start_url
            = Some (Returned cf)
          ∧ fetched_urls (trace cf) = [start_url; B; C; D]
          ∧ (scraped_content cf).*1 = [start_url; B; C; D]).
Proof.
  assert (Hfifo : ∀ c c',
    loop_head N d sdo cb start_url c →
    loop_cond c = true → loop_body c = Returned c' →
    ∃ u rest news,
      url_queue c = u :: rest
      ∧ fetched_urls (trace c') = fetched_urls (trace c) ++ [u]
      ∧ url_queue c' = rest ++ news
      ∧ discovery_order c' = discovery_order c ++ news).
  { intros c c' Hh Hc Hb.
    destruct (loop_head_inv _ _ _ _ _ _ Hh) as (Hf & _).
    destruct (iteration_fifo c c' Hf (loop_body_returned c c' Hc Hb))
      as (u & rest & news & Eq & Et & Eq').
    exists u, rest, news. repeat split; try done.
    unfold discovery_order. rewrite Et, Eq', Eq.
    rewrite <- !app_assoc. done. }
  split; [|split; [exact Hfifo|]].
  - intros c Hh. pose proof Hh as ([domain Hdom] & cs & Hs & Hr).
    destruct (first_head _ _ _ _ _ _ _ Hdom Hs) as [Hh0 (_&_&T0&Q0&_)].
    assert (loop_head N d sdo cb start_url c
            ∧ ∃ later, discovery_order c = start_url :: later) as [_ G];
      [|done].
    clear Hh. induction Hr as [|c' c'' Hr IH Hc Hb].
    + split; [done|]. exists []. unfold discovery_order. by rewrite T0, Q0.
    + destruct IH as [Hh' (later & E)].
      split; [by eapply loop_head_step|].
      destruct (Hfifo c' c'' Hh' Hc Hb) as (_&_&news&_&_&_&E').
      exists (later ++ news). by rewrite E', E.
  - intros B C D hs hb hc hd Hnd HN Fs Hs Fb Hb Fc Hc Fd Hd Ls Lb Lc Ld.
    apply NoDup_cons in Hnd as [Hn1 Hnd].
    apply NoDup_cons in Hnd as [Hn2 Hnd].
    apply NoDup_cons in Hnd as [Hn3 _].
    destruct (extract_links_spec _ _ _ _ Ls) as (domain & Hdom & _).
    destruct (update_progress_returns (seeded (init N d sdo cb) start_url)
                MsgStarting (Some start_url) 0) as [c0 H0];
      [simpl; lia|].
    destruct (first_head _ _ _ _ _ _ _ Hdom H0) as [Hh0 S0].
    destruct (success_turn _ _ _ _ _ c0 _ _ _ _ hs [B; C] Hh0 S0)
      as (c1 & B1 & C1 & S1); [simpl; lia|done..| |].
    { set_solver. }
    pose proof (loop_head_step _ _ _ _ _ _ _ Hh0 C1 B1) as Hh1.
    destruct (success_turn _ _ _ _ _ c1 _ _ _ _ hb [D] Hh1 S1)
      as (c2 & B2 & C2 & S2); [simpl; lia|done..| |].
    { set_solver. }
    pose proof (loop_head_step _ _ _ _ _ _ _ Hh1 C2 B2) as Hh2.
    destruct (success_turn _ _ _ _ _ c2 _ _ _ _ hc [] Hh2 S2)
      as (c3 & B3 & C3 & S3); [simpl; lia|done..| |].
    { set_solver. }
    pose proof (loop_head_step _ _ _ _ _ _ _ Hh2 C3 B3) as Hh3.
    destruct (success_turn _ _ _ _ _ c3 _ _ _ _ hd [] Hh3 S3)
      as (c4 & B4 & C4 & S4); [simpl; lia|done..| |].
    { set_solver. }
    pose proof (loop_head_step _ _ _ _ _ _ _ Hh3 C4 B4) as Hh4.
    destruct S4 as (K4 & _ & T4 & Q4 & _). simpl in K4, T4, Q4.
    assert (loop_cond c4 = false) as C5.
    { unfold loop_cond. by rewrite Q4. }
    destruct (loop_head_inv _ _ _ _ _ _ Hh4) as (_&_&Em&_).
    destruct (update_progress_returns c4
      (MsgCompleted (size (visited_urls c4)) (size (found_links c4))) None 0)
      as [cf Hcf]; [lia|].
    exists 4, cf. split.
    + rewrite (crawl_website_parsed _ _ _ _ Hdom), H0.
      rewrite (while_loop_step _ _ _ C1 B1), (while_loop_step _ _ _ C2 B2),
        (while_loop_step _ _ _ C3 B3), (while_loop_step _ _ _ C4 B4),
        (while_loop_done _ _ C5).
      by rewrite Hcf.
    + apply update_progress_fetched in Hcf as T.
      apply update_progress_attrs, attrs_eq in Hcf as (_&_&_&_&K&_).
      rewrite T, K. done.
Qed.

(** X7. After a session from a start URL that [urlparse] accepts, on a
    crawler with a budget of at least one page, [get_crawl_stats]
    returns: the pages it counts are the stored ones and within the
    budget, the visited URLs it lists are the URLs of the stored pages,
    none of them is in the remaining queue, and the pages counted
    together with the URLs in the queue are no more than the links
    counted as discovered. *)
Theorem stats_after_session fuel N d sdo cb start_url o :
  (1 ≤ N)%Z →
  (∃ domain, get_domain start_url = inr domain) →
  crawl_website fuel (init N d sdo cb) start_url = Some o →
  ∃ st,
    get_crawl_stats list_of_set (final o) = inr st
    ∧ pages_scraped st = length (scraped_content (final o))
    ∧ (Z.of_nat (pages_scraped st) ≤ cs_max_pages st)%Z
    ∧ cs_max_pages st = N
    ∧ (pages_scraped st + pages_in_queue st ≤ total_links_discovered st)%nat
    ∧ cs_visited_urls st ≡ₚ (scraped_content (final o)).*1
    ∧ (∀ u, u ∈ remaining_queue st → u ∉ cs_visited_urls st).
Proof.
  intros HN [domain Hdom] Ho.
  assert (frontier_ok (final o) ∧ content_ok (final o)
          ∧ max_pages (final o) = N ∧ budget_ok (final o))
    as (Hfr & Hco & Em & Hb).
  { apply crawl_website_cases in Ho
      as [(Hbad & _)|[(_ & _ & ? & _)|[(c & cf & Hh & _ & -> & Hu)
         |(c & cr & Hh & Hc & Hr & ->)]]]; [congruence|lia|..].
    - destruct (loop_head_inv _ _ _ _ _ _ Hh) as (Hfr & Hco & Em & _).
      pose proof (loop_head_budget N d sdo cb start_url c ltac:(lia) Hh)
        as Hb.
      apply update_progress_attrs in Hu. simpl.
      split; [by apply (frontier_attrs _ _ Hu)|].
      split; [by apply (content_attrs _ _ Hu)|].
      apply attrs_eq in Hu as (M&_&_&V&_). unfold budget_ok.
      rewrite M, V. done.
    - destruct (loop_head_inv _ _ _ _ _ _ Hh) as (Hfr & Hco & Em & _).
      destruct (raising_shape c ValueError cr Hfr Hco Hr)
        as (u & rest & c1 & html & _ & _ & _ & _ & _ & _ & _ & _ & _ & _
            & _ & _ & _ & Hfr' & Hco').
      destruct (within_budget c cr Hc (raising_within c ValueError cr Hr))
        as [M Hb].
      simpl. split; [done|]. split; [done|]. split; [congruence|done]. }
  pose proof (frontier_count _ Hfr) as Hcount.
  pose proof (content_length _ Hco) as Hlen.
  destruct Hfr as (_ & _ & _ & Hqv). destruct Hco as [Hnd Hk].
  unfold get_crawl_stats. rewrite Em.
  destruct (Z.eqb_spec N 0) as [?|_]; [lia|].
  eexists. split; [reflexivity|]. simpl. unfold budget_ok in Hb.
  split; [done|]. split; [lia|]. split; [done|]. split; [done|].
  split.
  - rewrite list_of_set_perm. symmetry.
    apply NoDup_Permutation; [done|apply NoDup_elements|].
    intros x. by rewrite Hk, elem_of_elements.
  - intros u Hu. rewrite list_of_set_perm, elem_of_elements. by apply Hqv.
Qed.

(** *** What a session fetches *)

(** What a turn of the loop queues has passed the filter against the
    domain of the start URL. *)
Lemma iteration_news start_url seed_domain c c' :
  get_domain start_url = inr seed_domain →
  anchored start_url c → frontier_ok c → iteration c c' →
  ∃ u rest news,
    url_queue c = u :: rest
    ∧ fetched_urls (trace c') = fetched_urls (trace c) ++ [u]
    ∧ url_queue c' = rest ++ news
    ∧ ∀ x, x ∈ news → is_valid_url c x seed_domain = inr true.
Proof.
  intros Hdom Ha Hfr Hi.
  destruct (iteration_fifo c c' Hfr Hi) as (u & rest & news & Eq & Et & Eq').
  exists u, rest, news. repeat split; try done.
  destruct Hi as [v rest0 Hq Hv|v rest0 c1 c2 Hq Hv H1 Hfl H2
                 |v rest0 c1 html links c4 n c5 Hq Hv H1 Hf Hh He Ho H2].
  - destruct Hfr as (_&_&_&Hqv). exfalso.
    apply (Hqv v); [rewrite Hq; by left|done].
  - apply update_progress_attrs, attrs_eq in H1 as (_&_&_&_&_&Q1&_).
    apply update_progress_attrs, attrs_eq in H2 as (_&_&_&_&_&Q2&_).
    simpl in *. rewrite Eq in Hq. injection Hq as <- <-.
    assert (news = []) as ->.
    { apply (app_inv_head rest). rewrite app_nil_r. congruence. }
    intros x Hx. by apply elem_of_nil in Hx.
  - apply update_progress_attrs, attrs_eq in H1 as (_&_&S1&_&_&Q1&_).
    apply update_progress_attrs, attrs_eq in H2 as (_&_&_&_&_&Q5&_).
    set (c3 := mark_visited v html (emit (Fetch v) c1)) in *.
    destruct (offers_queue links (c3, 0)) as (news' & E & Hn).
    rewrite Ho in E. simpl in E, S1, Q1.
    rewrite Eq in Hq. injection Hq as <- <-.
    assert (news' = news) as ->.
    { apply (app_inv_head rest).
      destruct (0 <? delay c5)%Z; simpl in Eq'; congruence. }
    destruct (extract_links_spec c3 html u links He) as (bd & Hbd & _ & Hl).
    intros x Hx. apply Hn, Hl in Hx as [_ Hx].
    rewrite (is_valid_url_config c3 c) in Hx by (simpl; congruence).
    destruct (same_domain_only c) eqn:Es.
    + assert (bd = seed_domain) as <-; [|done].
      specialize (Ha Es u). rewrite Eq in Ha.
      specialize (Ha ltac:(by left)). congruence.
    + by rewrite (is_valid_url_any_domain c x _ bd).
Qed.

Lemma loop_head_scope N d sdo cb start_url c :
  loop_head N d sdo cb start_url c →
  ∃ seed_domain,
    get_domain start_url = inr seed_domain
    ∧ (∀ u, u ∈ discovery_order c →
            u = start_url
            ∨ is_valid_url (init N d sdo cb) u seed_domain = inr true)
    ∧ (sdo = true →
       ∀ u, u ∈ discovery_order c → get_domain u = get_domain start_url)
    ∧ (fetched_urls (trace c) = []
       ∨ ∃ rest, fetched_urls (trace c) = start_url :: rest).
Proof.
  intros Hh. pose proof Hh as ([seed_domain Hdom] & cs & Hs & Hr).
  exists seed_domain. split; [done|].
  destruct (first_head _ _ _ _ _ _ _ Hdom Hs) as [Hh0 (_&_&T0&Q0&_)].
  assert (loop_head N d sdo cb start_url c ∧
    ((∀ u, u ∈ discovery_order c →
           u = start_url
           ∨ is_valid_url (init N d sdo cb) u seed_domain = inr true)
     ∧ (sdo = true →
        ∀ u, u ∈ discovery_order c → get_domain u = get_domain start_url)
     ∧ (fetched_urls (trace c) = []
        ∨ ∃ rest, fetched_urls (trace c) = start_url :: rest)
     ∧ ∃ later, discovery_order c = start_url :: later)) as [_ G];
    [|destruct G as (?&?&?&_); done].
  clear Hh. induction Hr as [|c' c'' Hr IH Hc Hb].
  - split; [done|]. unfold discovery_order. rewrite T0, Q0. simpl.
    split; [intros u ->%list_elem_of_singleton; by left|].
    split; [by intros _ u ->%list_elem_of_singleton|].
    split; [by left|by exists []].
  - destruct IH as [Hh' (Hval & Hsame & Hfirst & later & Hd)].
    pose proof (loop_head_step _ _ _ _ _ _ _ Hh' Hc Hb) as Hh''.
    split; [done|].
    destruct (loop_head_inv _ _ _ _ _ _ Hh') as (Hfr & _ & _ & _ & Es & _).
    pose proof (loop_head_anchored _ _ _ _ _ _ Hh') as Ha.
    pose proof (loop_body_returned c' c'' Hc Hb) as Hi.
    destruct (iteration_news start_url seed_domain c' c'' Hdom Ha Hfr Hi)
      as (u & rest & news & Eq & Et & Eq' & Hnew).
    assert (discovery_order c'' = discovery_order c' ++ news) as Ed.
    { unfold discovery_order. rewrite Et, Eq', Eq, <- !app_assoc. done. }
    assert (∀ x, x ∈ news →
              is_valid_url (init N d sdo cb) x seed_domain = inr true)
      as Hnew'.
    { intros x Hx. rewrite <- (Hnew x Hx). by apply is_valid_url_config. }
    split; [|split; [|split]].
    + rewrite Ed. intros x [Hx|Hx]%elem_of_app; [by apply Hval|].
      right. by apply Hnew'.
    + intros -> x. rewrite Ed. intros [Hx|Hx]%elem_of_app; [by apply Hsame|].
      rewrite Hdom.
      by apply (is_valid_url_domain (init N d true cb)), Hnew'.
    + right. rewrite Et. destruct Hfirst as [E|[r E]]; rewrite E.
      * unfold discovery_order in Hd. rewrite E, Eq in Hd.
        injection Hd as -> _. by exists [].
      * by exists (r ++ [u]).
    + rewrite Ed, Hd. by exists (later ++ news).
Qed.

(** X15. The start URL is fetched without being put to the filter, and,
    when [urlparse] accepts it, it is fetched first when the budget is
    at least one page.  Every other URL a session fetches has passed the
    URL filter against the domain of the start URL; with
    [same_domain_only] every URL fetched is on the domain of the start
    URL. *)
Theorem fetches_within_scope fuel N d sdo cb start_url o :
  crawl_website fuel (init N d sdo cb) start_url = Some o →
  (∀ u, u ∈ fetched_urls (trace (final o)) →
        ∃ seed_domain,
          get_domain start_url = inr seed_domain
          ∧ (u = start_url
             ∨ is_valid_url (init N d sdo cb) u seed_domain = inr true))
  ∧ (sdo = true →
     ∀ u, u ∈ fetched_urls (trace (final o)) →
          get_domain u = get_domain start_url)
  ∧ ((1 ≤ N)%Z → (∃ domain, get_domain start_url = inr domain) →
     ∃ rest, fetched_urls (trace (final o)) = start_url :: rest).
Proof.
  intros Ho.
  assert (Hhead : ∀ c, loop_head N d sdo cb start_url c →
    loop_cond c = true → ∃ rest, fetched_urls (trace c) ++ [hd start_url (url_queue c)] = start_url :: rest).
  { intros c Hh Hc.
    destruct (loop_head_scope _ _ _ _ _ _ Hh) as (_ & _ & _ & _ & Hfirst).
    destruct (loop_cond_true c Hc) as [(u & rest & Hq) _]. rewrite Hq. simpl.
    destruct Hfirst as [E|[r E]]; rewrite E; [|by exists (r ++ [u])].
    exists []. simpl. f_equal.
    pose proof Hh as ([domain Hdom] & cs & Hs & Hr).
    destruct (first_head _ _ _ _ _ _ _ Hdom Hs) as [_ (_&_&T0&Q0&_)].
    assert (discovery_order c = [start_url]) as Hd.
    { clear Hc Hq. induction Hr as [|c' c'' Hr IH Hc' Hb].
      - unfold discovery_order. by rewrite T0, Q0.
      - assert (loop_head N d sdo cb start_url c') as Hh'
          by (split; [by exists domain|by exists cs]).
        destruct (loop_head_inv _ _ _ _ _ _ Hh') as (Hfr & _).
        destruct (iteration_fifo c' c'' Hfr (loop_body_returned _ _ Hc' Hb))
          as (v & rest' & news & _ & Et & _).
        rewrite Et in E. by destruct (fetched_urls (trace c')). }
    unfold discovery_order in Hd. rewrite E, Hq in Hd. simpl in Hd.
    congruence. }
  apply crawl_website_cases in Ho
    as [(Hbad & ->)|[(_ & _ & HN0 & ->)|[(c & cf & Hh & Hc & -> & Hu)
       |(c & cr & Hh & Hc & Hr & ->)]]].
  - simpl. split; [intros u Hu; by apply elem_of_nil in Hu|].
    split; [intros _ u Hu; by apply elem_of_nil in Hu|].
    intros _ [domain Hdom]. congruence.
  - simpl. split; [intros u Hu; by apply elem_of_nil in Hu|].
    split; [intros _ u Hu; by apply elem_of_nil in Hu|]. lia.
  - apply update_progress_fetched in Hu as T. simpl. rewrite T.
    destruct (loop_head_scope _ _ _ _ _ _ Hh)
      as (seed_domain & Hdom & Hval & Hsame & Hfirst).
    split; [|split].
    + intros u Hin. exists seed_domain. split; [done|]. apply Hval.
      unfold discovery_order. apply elem_of_app. by left.
    + intros Hs u Hin. apply (Hsame Hs). unfold discovery_order.
      apply elem_of_app. by left.
    + intros HN _. destruct Hfirst as [E|?]; [|done]. exfalso.
      destruct (loop_head_inv _ _ _ _ _ _ Hh) as (_ & [_ Hk] & Em & _).
      destruct (loop_head_history _ _ _ _ _ _ Hh) as (_&_&Hsub&_).
      rewrite E in Hsub. apply sublist_nil_r in Hsub.
      assert (visited_urls c = ∅) as Hv.
      { apply set_eq. intros x. rewrite <- Hk.
        apply fmap_nil_inv in Hsub. rewrite Hsub. set_solver. }
      pose proof Hh as (_ & cs & Hs & Hr).
      destruct (first_head _ _ _ _ _ _ _ Hdom Hs) as [_ (_&_&T0&Q0&_)].
      assert (discovery_order c = [start_url]) as Hd.
      { clear Hc Hk Em Hsub Hv. induction Hr as [|c' c'' Hr IH Hc' Hb].
        - unfold discovery_order. by rewrite T0, Q0.
        - assert (loop_head N d sdo cb start_url c') as Hh'
            by (split; [by exists seed_domain|by exists cs]).
          destruct (loop_head_inv _ _ _ _ _ _ Hh') as (Hfr & _).
          destruct (iteration_fifo c' c'' Hfr (loop_body_returned _ _ Hc' Hb))
            as (u & rest & news & _ & Et & _).
          rewrite Et in E. by destruct (fetched_urls (trace c')). }
      unfold discovery_order in Hd. rewrite E in Hd. simpl in Hd.
      unfold loop_cond in Hc. rewrite Hd, Hv, Em, size_empty in Hc.
      simpl in Hc. apply Z.ltb_ge in Hc. lia.
  - destruct (loop_head_inv _ _ _ _ _ _ Hh) as (Hfr & Hco & _).
    destruct (raising_shape c ValueError cr Hfr Hco Hr)
      as (u & rest & c1 & html & (Hq & _) & _ & _ & _ & _ & _ & _ & _ & _
          & _ & T & _).
    destruct (loop_head_scope _ _ _ _ _ _ Hh)
      as (seed_domain & Hdom & Hval & Hsame & _).
    assert (∀ x, x ∈ fetched_urls (trace cr) → x ∈ discovery_order c)
      as Hin.
    { intros x. rewrite T. unfold discovery_order. rewrite Hq.
      intros [?| ->%list_elem_of_singleton]%elem_of_app; apply elem_of_app;
        [by left|right; by left]. }
    simpl. split; [|split].
    + intros x Hx. exists seed_domain. split; [done|]. by apply Hval, Hin.
    + intros Hs x Hx. by apply (Hsame Hs), Hin.
    + intros _ _. destruct (Hhead c Hh Hc) as [r Hr']. exists r.
      rewrite T. by rewrite Hq in Hr'.
Qed.

End Scoped.
End Steps.

(** ** The URL filter *)

(** C5. The URL filter is a function of the URL, the base domain and the
    [same_domain_only] setting alone, and with that setting on it rejects
    the login page, accepts the about page, rejects the page on another
    host and rejects the PDF. *)
Theorem is_valid_url_pure checknetloc unicode_lower :
  (∀ c c' url base_domain,
      same_domain_only c = same_domain_only c' →
      is_valid_url checknetloc unicode_lower c url base_domain
      = is_valid_url checknetloc unicode_lower c' url base_domain)
  ∧ (∀ c,
      same_domain_only c = true →
      is_valid_url checknetloc unicode_lower c "https://x.com/login" "x.com"
      = inr false
      ∧ is_valid_url checknetloc unicode_lower c "https://x.com/about" "x.com"
        = inr true
      ∧ is_valid_url checknetloc unicode_lower c "https://other.com/about"
          "x.com" = inr false
      ∧ is_valid_url checknetloc unicode_lower c "https://x.com/report.pdf"
          "x.com" = inr false).
Proof.
  split.
  - intros c c' url bd Hs. unfold is_valid_url. by rewrite Hs.
  - intros c Hs. unfold is_valid_url. rewrite Hs.
    repeat split; vm_compute; reflexivity.
Qed.

(** ** Offering a link twice *)

(** C8. Offering a link that is among the found links changes nothing, and
    after a link is offered it is among them: the second of two offers of
    the same link leaves the queue, the found links and the count of new
    links as the first left them.  The two offers together add at most one
    to the count and to the number of found links, add the link to the
    queue at most once, and not at all when it is waiting there already. *)
Theorem offer_idempotent c n link :
  let st1 := offer (c, n) link in
  let st2 := offer st1 link in
  (link ∈ found_links c → st1 = (c, n))
  ∧ link ∈ found_links st1.1
  ∧ st2 = st1
  ∧ (st2.2 ≤ S n)%nat
  ∧ (size (found_links st2.1) ≤ S (size (found_links c)))%nat
  ∧ (url_queue st2.1 = url_queue c
     ∨ ((link ∉ url_queue c) ∧ url_queue st2.1 = url_queue c ++ [link]))
  ∧ (NoDup (url_queue c) → NoDup (url_queue st2.1)).
Proof.
  intros st1 st2.
  assert (link ∈ found_links st1.1) as Hin by apply offer_found.
  assert (st2 = st1) as E.
  { unfold st2. destruct st1 as [c1 n1]. by apply offer_known. }
  rewrite E. split; [by apply offer_known|]. split; [done|]. split; [done|].
  unfold st1, offer. repeat case_decide; simpl.
  all: repeat split; try lia.
  all: try (by left).
  all: try (intros Hnd; try done).
  - destruct (decide (link ∈ found_links c)); [done|].
    rewrite size_union by set_solver. rewrite size_singleton. lia.
  - right. split; [tauto|done].
  - apply NoDup_app. repeat split; [done| |apply NoDup_singleton].
    intros x Hx ->%list_elem_of_singleton. tauto.
  - rewrite size_union by set_solver. rewrite size_singleton. lia.
Qed.

(** ** Empty pages *)

(** C10. A fetch that returns the empty string is handled as a fetch that
    raises: the turn of the loop leaves the crawler in the same state in
    both cases, with nothing visited, stored or found, the page gone from
    the queue, a "failed" report to the callback when there is one, and
    no sleep. *)
Theorem empty_page_is_failure checknetloc unicode_lower find_all_a_href
    urljoin list_of_set
    (scrape_website scrape_website' : list event → string → fetch_result)
    c u rest c1 :
  loop_cond c = true →
  url_queue c = u :: rest →
  u ∉ visited_urls c →
  update_progress (set_url_queue rest c) MsgScraping (Some u) 0
    = Returned c1 →
  scrape_website (trace c1) u = FetchReturned "" →
  scrape_website' (trace c1) u = FetchRaised →
  ∃ c',
    loop_body checknetloc unicode_lower find_all_a_href urljoin list_of_set
      scrape_website c = Returned c'
    ∧ loop_body checknetloc unicode_lower find_all_a_href urljoin
        list_of_set scrape_website' c = Returned c'
    ∧ visited_urls c' = visited_urls c
    ∧ scraped_content c' = scraped_content c
    ∧ found_links c' = found_links c
    ∧ url_queue c' = rest
    ∧ (progress_callback c = true →
       ∃ pd, trace c' = trace c1 ++ [Fetch u; Progress pd]
             ∧ pd_message pd = MsgFailed
             ∧ pd_current_url pd = Some u)
    ∧ (progress_callback c = false → trace c' = trace c1 ++ [Fetch u])
    ∧ (∀ seconds, Sleep seconds ∈ trace c' → Sleep seconds ∈ trace c1).
Proof.
  intros Hc Hq Hv H1 He Hr.
  destruct (fail_turn checknetloc unicode_lower find_all_a_href urljoin
              list_of_set scrape_website c u rest c1 Hc Hq Hv H1)
    as (c' & H2 & Hb & A & Ht).
  { by rewrite He. }
  exists c'. split; [done|]. split.
  { apply iteration_loop_body. eapply iter_fail; try done.
    by rewrite truthy_failed, Hr. }
  apply attrs_eq in A as (_&_&_&V&S&Q&F&_). simpl in *.
  repeat split; try done.
  - intros Hcb. destruct Ht as [[? _]|[_ ?]]; [congruence|done].
  - intros Hcb. destruct Ht as [[_ ?]|[? _]]; [done|congruence].
  - intros seconds.
    destruct Ht as [[_ ->]|(_ & pd & -> & _)];
      rewrite elem_of_app; (intros [?|Hin]; [done|]);
      repeat (apply elem_of_cons in Hin as [?|Hin]; [done|]);
      by apply elem_of_nil in Hin.
Qed.

(** ** Configurations below one page *)

(** C7, as the code has it. A crawler is made whatever [max_pages] is.
    With [max_pages] below one, a session on it fetches no page, visits
    nothing and stores nothing, and [crawl_website] returns when
    [urlparse] accepts the start URL and there is no callback or
    [max_pages] is negative. *)
Theorem small_budget_session checknetloc unicode_lower find_all_a_href
    urljoin list_of_set scrape_website N d sdo cb start_url :
  (N < 1)%Z →
  ∃ o,
    (∀ fuel,
        crawl_website checknetloc unicode_lower find_all_a_href urljoin
          list_of_set scrape_website fuel (init N d sdo cb) start_url
        = Some o)
    ∧ fetched_urls (trace (final o)) = []
    ∧ visited_urls (final o) = ∅
    ∧ scraped_content (final o) = []
    ∧ ((∃ domain, get_domain checknetloc start_url = inr domain) →
       cb = false ∨ N ≠ 0%Z →
       ∃ cf, o = Returned cf).
Proof.
  intros HN. unfold crawl_website.
  destruct (seed_cases checknetloc (init N d sdo cb) start_url)
    as [(domain & Hdom & ->)|(Hdom & ->)].
  2:{ exists (Raised ValueError (queued (init N d sdo cb) start_url)).
      split; [done|]. repeat split. intros [domain Hdom']. congruence. }
  cbv beta iota.
  assert (Hdone : ∀ c, attrs c = attrs (seeded (init N d sdo cb) start_url) →
            loop_cond c = false).
  { intros c (Em&_&_&Ev&_)%attrs_eq. unfold loop_cond. rewrite Em, Ev.
    change (size (visited_urls (seeded (init N d sdo cb) start_url)))
      with (size (∅ : gset string)).
    rewrite size_empty. change (Z.of_nat 0) with 0%Z.
    change (max_pages (seeded (init N d sdo cb) start_url)) with N.
    destruct (Z.ltb_spec 0 N); [lia|apply andb_false_r]. }
  destruct (update_progress_cases (seeded (init N d sdo cb) start_url)
              MsgStarting (Some start_url) 0)
    as [[Hcb E]|[(Hcb & HN0 & E)|(Hcb & HN0 & pd & E & _)]];
    rewrite E; simpl in Hcb.
  - exists (Returned (seeded (init N d sdo cb) start_url)).
    split; [|repeat split; eauto].
    intros fuel. rewrite while_loop_done by (by apply Hdone).
    unfold update_progress. simpl. by rewrite Hcb.
  - simpl in HN0.
    exists (Raised ZeroDivisionError (seeded (init N d sdo cb) start_url)).
    split; [done|]. repeat split. intros _ [?|?]; congruence.
  - simpl in HN0.
    set (c := emit (Progress pd) (seeded (init N d sdo cb) start_url)).
    destruct (update_progress_cases c
      (MsgCompleted (size (visited_urls c)) (size (found_links c))) None 0)
      as [[Hcb' _]|[(_ & HN0' & _)|(_ & _ & pd' & E' & _)]];
      [simpl in Hcb'; congruence|simpl in HN0'; congruence|].
    exists (Returned (emit (Progress pd') c)).
    split; [|repeat split; eauto].
    intros fuel. rewrite while_loop_done by (by apply Hdone).
    by rewrite E'.
Qed.

(** ** Cleaned text *)

Section TextFacts.

Context {char : Type}.
Variable is_space is_break is_cr is_lf : char → bool.
Variable lf : char.

(** The newline ends a line and is not the carriage return. *)
Hypothesis lf_break : is_break lf = true.
Hypothesis lf_not_cr : is_cr lf = false.

Abbreviation splitlines_from := (splitlines_from is_break is_cr is_lf).
Abbreviation splitlines := (splitlines is_break is_cr is_lf).
Abbreviation lstrip := (lstrip is_space).
Abbreviation strip := (strip is_space).
Abbreviation clean_text := (clean_text is_space is_break is_cr is_lf lf).
Abbreviation unbroken := (Forall (λ c, is_break c = false)).

Lemma lstrip_elem (l : list char) x : x ∈ lstrip l → x ∈ l.
Proof.
  induction l as [|c l IH]; simpl; [done|].
  destruct (is_space c); [|done]. intros H. right. by apply IH.
Qed.

Lemma lstrip_head (l : list char) c t :
  lstrip l = c :: t → is_space c = false.
Proof.
  induction l as [|a l IH]; simpl; [done|].
  destruct (is_space a) eqn:E; [done|]. by intros [= <- <-].
Qed.

Lemma lstrip_id c (t : list char) :
  is_space c = false → lstrip (c :: t) = c :: t.
Proof. intros H. simpl. by rewrite H. Qed.

Lemma lstrip_snoc (l : list char) c :
  is_space c = false → lstrip (l ++ [c]) = lstrip l ++ [c].
Proof.
  intros H. induction l as [|a l IH]; simpl; [by rewrite H|].
  by destruct (is_space a).
Qed.

(** What [strip] returns is empty or starts and ends with characters that
    are not white space. *)
Lemma strip_ends (l : list char) :
  strip l = []
  ∨ ∃ c t d, strip l = c :: t ∧ is_space c = false
             ∧ last (strip l) = Some d ∧ is_space d = false.
Proof.
  unfold strip.
  destruct (lstrip l) as [|c t] eqn:E; [by left|].
  pose proof (lstrip_head _ _ _ E) as Hc.
  rewrite reverse_cons, (lstrip_snoc _ _ Hc), reverse_snoc.
  right. destruct (lstrip (reverse t)) as [|d r] eqn:E'.
  - exists c, [], c. by rewrite reverse_nil.
  - exists c, (reverse (d :: r)), d. repeat split; [done| |].
    + rewrite reverse_cons. change (c :: (reverse r ++ [d]))
        with ((c :: reverse r) ++ [d]). apply last_snoc.
    + by apply (lstrip_head _ _ _ E').
Qed.

Lemma strip_fixed (l : list char) c t d :
  l = c :: t → is_space c = false → last l = Some d → is_space d = false →
  strip l = l.
Proof.
  intros -> Hc Hl Hd. unfold strip. rewrite (lstrip_id _ _ Hc).
  destruct (reverse (c :: t)) as [|e r] eqn:E.
  - apply (f_equal reverse) in E. rewrite reverse_involutive in E. done.
  - assert (e = d) as ->.
    { apply (f_equal reverse) in E. rewrite reverse_involutive in E.
      rewrite E, reverse_cons, last_snoc in Hl. congruence. }
    rewrite (lstrip_id _ _ Hd), <- E. apply reverse_involutive.
Qed.

Lemma strip_idempotent (l : list char) : strip (strip l) = strip l.
Proof.
  destruct (strip_ends l) as [->|(c & t & d & E & Hc & Hl & Hd)]; [done|].
  by apply (strip_fixed _ c t d).
Qed.

Lemma strip_unbroken (l : list char) : unbroken l → unbroken (strip l).
Proof.
  intros H. unfold strip. apply Forall_reverse.
  apply Forall_forall. intros x Hx%lstrip_elem.
  apply elem_of_reverse, lstrip_elem in Hx.
  by apply (proj1 (Forall_forall _ _) H).
Qed.

Lemma splitlines_from_unbroken (n : nat) (text line : list char) :
  (length text ≤ n)%nat → unbroken line →
  Forall unbroken (splitlines_from line text).
Proof.
  revert text line. induction n as [|n IH]; intros text line Hn Hl.
  - destruct text; [|simpl in Hn; lia]. simpl.
    destruct line; [done|]. by apply Forall_singleton.
  - destruct text as [|c rest]; simpl in *.
    + destruct line; [done|]. by apply Forall_singleton.
    + destruct (is_break c) eqn:Hc.
      * apply Forall_cons. split; [done|].
        destruct rest as [|c' rest']; [done|].
        destruct (is_cr c && is_lf c'); apply IH; simpl in *; (lia || done).
      * apply IH; [lia|]. apply Forall_app. split; [done|].
        by apply Forall_singleton.
Qed.

Lemma splitlines_from_app (l rest line : list char) :
  unbroken l →
  splitlines_from line (l ++ rest) = splitlines_from (line ++ l) rest.
Proof.
  intros H. revert line. induction H as [|c l Hc _ IH]; intros line; simpl.
  - by rewrite app_nil_r.
  - rewrite Hc, IH. by rewrite <- app_assoc.
Qed.

Lemma splitlines_from_lf (line rest : list char) :
  splitlines_from line (lf :: rest) = line :: splitlines_from [] rest.
Proof.
  simpl. rewrite lf_break, lf_not_cr. by destruct rest.
Qed.

(** Lines that are not empty and hold no line boundary are the lines of
    their join. *)
Lemma splitlines_join (lines : list (list char)) :
  Forall (λ l, l ≠ [] ∧ unbroken l) lines →
  splitlines (join [lf] lines) = lines.
Proof.
  unfold splitlines.
  induction 1 as [|l lines [Hne Hl] _ IH]; [done|].
  destruct lines as [|l' lines].
  - pose proof (splitlines_from_app l [] [] Hl) as E.
    rewrite app_nil_r in E. simpl in *. rewrite E. by destruct l.
  - change (join [lf] (l :: l' :: lines))
      with (l ++ lf :: join [lf] (l' :: lines)).
    rewrite (splitlines_from_app l _ [] Hl), splitlines_from_lf.
    simpl app. by rewrite IH.
Qed.

Lemma cleaned_lines (text : list char) :
  Forall (λ l, l ≠ [] ∧ unbroken l ∧ strip l = l)
    (map strip (filter (λ line, nonempty (strip line)) (splitlines text))).
Proof.
  apply Forall_forall. intros l (line & -> & Hin)%list_elem_of_fmap.
  apply list_elem_of_filter in Hin as [Hne Hin].
  split; [by destruct (strip line)|].
  split; [|apply strip_idempotent].
  apply strip_unbroken.
  pose proof (splitlines_from_unbroken (length text) text [] (le_n _)
                (Forall_nil_2 _)) as H.
  by apply (proj1 (Forall_forall _ _) H).
Qed.

(** X10. The lines of a cleaned text are the stripped non-blank lines of
    the text: none is empty, and each starts and ends with a character
    that is not white space. *)
Theorem clean_text_lines (text : list char) :
  splitlines (clean_text text)
  = map strip (filter (λ line, nonempty (strip line)) (splitlines text))
  ∧ Forall (λ l, ∃ c t d, l = c :: t ∧ is_space c = false
                          ∧ last l = Some d ∧ is_space d = false)
      (splitlines (clean_text text)).
Proof.
  pose proof (cleaned_lines text) as H.
  assert (splitlines (clean_text text)
          = map strip (filter (λ line, nonempty (strip line))
                         (splitlines text))) as E.
  { apply splitlines_join. eapply Forall_impl; [exact H|].
    by intros l (? & ? & _). }
  split; [done|]. rewrite E.
  eapply Forall_impl; [exact H|]. intros l (Hne & _ & Hs).
  destruct (strip_ends l) as [E'|(c & t & d & E' & Hc & Hl & Hd)];
    rewrite Hs in *; [done|].
  by exists c, t, d.
Qed.

(** X11. Cleaning a cleaned text changes nothing. *)
Theorem clean_text_idempotent (text : list char) :
  clean_text (clean_text text) = clean_text text.
Proof.
  pose proof (cleaned_lines text) as H.
  unfold clean_text at 1.
  fold (clean_text text).
  replace (splitlines (clean_text text))
    with (map strip (filter (λ line, nonempty (strip line))
                       (splitlines text))).
  2:{ symmetry. apply splitlines_join. eapply Forall_impl; [exact H|].
      by intros l (? & ? & _). }
  unfold clean_text. f_equal.
  induction H as [|l ls (Hne & _ & Hs) _ IH]; [done|].
  rewrite filter_cons, decide_True by (rewrite Hs; by destruct l).
  rewrite map_cons, Hs. f_equal. apply IH.
Qed.

End TextFacts.

(** ** Pieces of a text *)

Section Pieces.

Context {A : Type}.
Implicit Types text : list A.

Lemma slice_piece text (n k : nat) :
  py_slice text (Z.of_nat (k * n)) (Z.of_nat (k * n) + Z.of_nat n)
  = take n (drop (k * n) text).
Proof.
  unfold py_slice, slice_bound.
  set (len := length text). set (a := (k * n)%nat).
  destruct (Z.ltb_spec (Z.of_nat a) 0) as [?|_]; [lia|].
  destruct (Z.ltb_spec (Z.of_nat a + Z.of_nat n) 0) as [?|_]; [lia|].
  destruct (decide (a ≤ len)%nat) as [Ha|Ha].
  - replace (Z.to_nat (Z.max 0 (Z.min (Z.of_nat len) (Z.of_nat a))))
      with a by lia.
    destruct (decide (a + n ≤ len)%nat) as [Hn|Hn].
    + f_equal. lia.
    + rewrite !take_ge; [done|rewrite length_drop; fold len; lia..].
  - rewrite (drop_ge text a) by (fold len; lia).
    rewrite drop_ge by (fold len; lia). by rewrite !take_nil.
Qed.

Lemma pieces_concat (n m : nat) text :
  (length text ≤ m * n)%nat →
  concat (map (λ k, take n (drop (k * n) text)) (seq 0 m)) = text.
Proof.
  revert text. induction m as [|m IH]; intros text Hlen.
  - simpl. destruct text; [done|simpl in Hlen; lia].
  - transitivity (take n text ++ drop n text); [|apply take_drop].
    change (seq 0 (S m)) with (0 :: seq 1 m).
    rewrite map_cons, concat_cons. f_equal.
    rewrite <- (IH (drop n text)) by (rewrite length_drop; lia).
    rewrite <- fmap_S_seq. f_equal.
    change (map ?f (S <$> ?l)) with (f <$> (S <$> l)).
    rewrite <- list_fmap_compose.
    apply list_fmap_ext. intros i k _. simpl.
    rewrite drop_drop. repeat f_equal; lia.
Qed.

(** With a positive [max_length] the pieces are the successive runs of
    [max_length] elements, as many as cover the text. *)
Lemma split_pieces text (max_length : Z) :
  (0 < max_length)%Z →
  ∃ m : nat,
    split_dom_content text max_length
    = Some (map (λ k, take (Z.to_nat max_length)
                        (drop (k * Z.to_nat max_length) text)) (seq 0 m))
    ∧ (length text ≤ m * Z.to_nat max_length)%nat
    ∧ (∀ k, (k < m)%nat → (k * Z.to_nat max_length < length text)%nat).
Proof.
  intros Hpos. unfold split_dom_content, py_range.
  destruct (Z.eqb_spec max_length 0) as [?|_]; [lia|].
  set (n := Z.to_nat max_length).
  exists (Z.to_nat (range_length 0 (Z.of_nat (length text)) max_length)).
  split.
  - f_equal. rewrite <- list_fmap_compose. apply list_fmap_ext.
    intros i k _. simpl.
    replace (Z.of_nat k * max_length)%Z with (Z.of_nat (k * n)) by lia.
    replace max_length with (Z.of_nat n) at 1 by lia.
    apply slice_piece.
  - unfold range_length.
    destruct (Z.ltb_spec 0 max_length) as [_|?]; [|lia].
    destruct (Z.ltb_spec 0 (Z.of_nat (length text))) as [Hl|Hl].
    + pose proof (Z.div_mod (Z.of_nat (length text) - 1 - 0) max_length
                    ltac:(lia)) as Hdm.
      pose proof (Z.mod_pos_bound (Z.of_nat (length text) - 1 - 0) max_length
                    Hpos) as Hmod.
      pose proof (Z.div_pos (Z.of_nat (length text) - 1 - 0) max_length
                    ltac:(lia) Hpos) as Hq.
      set (q := ((Z.of_nat (length text) - 1 - 0) / max_length)%Z) in *.
      split; [nia|]. intros k Hk. nia.
    + split; [lia|]. intros k Hk. simpl in Hk. lia.
Qed.

(** X12. With a positive [max_length], the pieces of a text put one after
    the other are the text. *)
Theorem split_dom_content_concat text (max_length : Z) :
  (0 < max_length)%Z →
  ∃ pieces,
    split_dom_content text max_length = Some pieces
    ∧ concat pieces = text.
Proof.
  intros Hpos.
  destruct (split_pieces text max_length Hpos) as (m & E & Hlen & _).
  eexists. split; [exact E|]. by apply pieces_concat.
Qed.

(** X13. With a positive [max_length], no piece is empty, every piece but
    the last has exactly [max_length] elements and the last has at most
    that many; an empty text has no piece. *)
Theorem split_dom_content_sizes text (max_length : Z) :
  (0 < max_length)%Z →
  ∃ pieces,
    split_dom_content text max_length = Some pieces
    ∧ (∀ i piece,
          pieces !! i = Some piece →
          (0 < length piece)%nat
          ∧ (Z.of_nat (length piece) ≤ max_length)%Z
          ∧ ((S i < length pieces)%nat →
             Z.of_nat (length piece) = max_length))
    ∧ (text = [] → pieces = []).
Proof.
  intros Hpos.
  destruct (split_pieces text max_length Hpos) as (m & E & Hlen & Hlt).
  eexists. split; [exact E|]. split.
  - intros i piece Hi. rewrite length_fmap, length_seq.
    apply list_lookup_fmap_Some in Hi as (k & -> & Hk).
    apply lookup_seq in Hk as [-> Hk]. simpl.
    rewrite length_take, length_drop.
    pose proof (Hlt i Hk) as Hi. split; [lia|]. split; [lia|].
    intros Hi'. pose proof (Hlt (S i) Hi'). lia.
  - intros ->. destruct m as [|m]; [done|].
    specialize (Hlt 0 ltac:(lia)). simpl in Hlt. lia.
Qed.

(** X14. A [max_length] of 0 makes [split_dom_content] raise, and with a
    negative [max_length] it returns no piece at all, whatever the
    text. *)
Theorem split_dom_content_nonpositive text (max_length : Z) :
  (max_length ≤ 0)%Z →
  split_dom_content text max_length
  = if (max_length =? 0)%Z then None else Some [].
Proof.
  intros Hle. unfold split_dom_content, py_range, range_length.
  destruct (Z.eqb_spec max_length 0) as [?|Hne]; [done|].
  destruct (Z.ltb_spec 0 max_length) as [?|_]; [lia|].
  destruct (Z.ltb_spec (Z.of_nat (length text)) 0) as [?|_]; [lia|done].
Qed.

End Pieces.

(** ** The URL shown *)

Section Shown.

Context {char : Type}.
Variable of_ascii : ascii → char.

Abbreviation literal := (literal of_ascii).
Abbreviation display_url := (display_url of_ascii).
Abbreviation current_text := (current_text of_ascii).

(** X9. The URL shown for a report has at most 50 characters and starts
    with the first 47 characters of the URL; it is the URL itself exactly
    when the URL has at most 50 characters, and otherwise its first 47
    characters and three dots.  The text written for a report has at
    most 59 characters, and nothing is written when the report has no
    URL or an empty one. *)
Theorem display_url_short :
  (∀ url : list char,
      (length (display_url url) ≤ 50)%nat
      ∧ take 47 url `prefix_of` display_url url
      ∧ (display_url url = url ↔ (length url ≤ 50)%nat)
      ∧ ((50 < length url)%nat →
         display_url url = take 47 url ++ literal "..."))
  ∧ (∀ current_url : option (list char),
      match current_text current_url with
      | Some text =>
          (length text ≤ 59)%nat
          ∧ ∃ url, current_url = Some url ∧ url ≠ []
                   ∧ text = literal "Current: " ++ display_url url
      | None => current_url = None ∨ current_url = Some []
      end).
Proof.
  assert (Hcut : ∀ url : list char, (50 < length url)%nat →
            display_url url = take 47 url ++ literal "...").
  { intros url Hl. unfold display_url.
    by destruct (Nat.ltb_spec 50 (length url)); [|lia]. }
  assert (Hwhole : ∀ url : list char, (length url ≤ 50)%nat →
            display_url url = url).
  { intros url Hl. unfold display_url.
    by destruct (Nat.ltb_spec 50 (length url)); [lia|]. }
  assert (Hlen : ∀ url : list char, (length (display_url url) ≤ 50)%nat).
  { intros url. destruct (decide (50 < length url)%nat) as [Hl|Hl].
    - rewrite (Hcut url Hl), length_app, length_take.
      change (length (literal "...")) with 3. lia.
    - rewrite Hwhole; lia. }
  split.
  - intros url. split; [apply Hlen|].
    destruct (decide (50 < length url)%nat) as [Hl|Hl].
    + rewrite (Hcut url Hl).
      split; [by apply prefix_app_r|]. split; [|done].
      split; [|lia]. intros E. apply (f_equal length) in E.
      rewrite length_app, length_take in E.
      change (length (literal "...")) with 3 in E. lia.
    + rewrite Hwhole by lia.
      split; [apply prefix_take|]. split; [|lia]. split; [lia|done].
  - intros [[|a url]|]; [by right| |by left].
    assert (current_text (Some (a :: url))
            = Some (literal "Current: " ++ display_url (a :: url))) as ->
      by reflexivity.
    split; [|by exists (a :: url)].
    pose proof (Hlen (a :: url)) as H.
    rewrite length_app.
    change (length (literal "Current: ")) with 9. lia.
Qed.

End Shown.

(** ** The theorems on the small site *)

Local Abbreviation on_site thm :=
  (thm Demo.checknetloc Demo.unicode_lower Demo.find_all_a_href Demo.urljoin
     Demo.list_of_set) (only parsing).

Lemma demo_list_of_set_perm (X : gset string) :
  Demo.list_of_set X ≡ₚ elements X.
Proof. apply reverse_Permutation. Qed.

Lemma demo_parsed :
  ∃ domain, get_domain Demo.checknetloc Demo.seed_url = inr domain.
Proof. by exists "x.com". Qed.

Lemma demo_head0 :
  on_site loop_head Demo.scrape_website 10 2 true true Demo.seed_url
    Demo.head0.
Proof.
  split; [exact demo_parsed|].
  exists Demo.head0. split; [reflexivity|apply reach_refl].
Qed.

Lemma demo_head1 :
  on_site loop_head Demo.scrape_website 10 2 true true Demo.seed_url
    Demo.head1.
Proof.
  apply (on_site loop_head_step Demo.scrape_website 10 2 true true
           Demo.seed_url Demo.head0 Demo.head1 demo_head0).
  - reflexivity.
  - vm_compute. reflexivity.
Qed.

Lemma demo_scraping :
  scraping Demo.scrape_website Demo.head0 Demo.seed_url [] Demo.reported0
    Demo.page_seed.
Proof.
  repeat split; try reflexivity; [|discriminate].
  exact (not_elem_of_empty (C:=gset string) Demo.seed_url).
Qed.

Lemma demo_scraping_b :
  scraping Demo.scrape_website Demo.head1 Demo.url_b [Demo.url_c]
    Demo.reported1 Demo.page_b.
Proof.
  split; [vm_compute; reflexivity|].
  split; [|split; [vm_compute; reflexivity|split; [reflexivity|discriminate]]].
  apply (bool_decide_unpack _). vm_compute. exact I.
Qed.

Lemma crawl_budget_witness :
  (0 ≤ 2)%Z
  ∧ ∃ o, Demo.crawl 2 true = Some o
         ∧ (Z.of_nat (length (scraped_content (final o))) ≤ 2)%Z.
Proof.
  split; [lia|].
  destruct (on_site crawl_budget Demo.scrape_website 2 2 true true
              Demo.seed_url ltac:(lia))
    as (_ & Hlen & _).
  eexists. split; [vm_compute; reflexivity|].
  apply (Hlen 10). vm_compute. reflexivity.
Defined.

Lemma links_scoped_to_seed_witness :
  loop_cond Demo.head1 = true
  ∧ ∃ links,
      on_site extract_links
        (mark_visited Demo.url_b Demo.page_b
           (emit (Fetch Demo.url_b) Demo.reported1))
        Demo.page_b Demo.url_b = inr links
      ∧ (Demo.url_other
         ∈ resolved_hrefs Demo.find_all_a_href Demo.urljoin Demo.page_b
             Demo.url_b)
      ∧ (Demo.url_other ∉ links)
      ∧ ∀ link, link ∈ links → Url.netloc link = Url.netloc Demo.seed_url.
Proof.
  split; [reflexivity|].
  assert (on_site extract_links
            (mark_visited Demo.url_b Demo.page_b
               (emit (Fetch Demo.url_b) Demo.reported1))
            Demo.page_b Demo.url_b = inr [Demo.url_d]) as He
    by (vm_compute; reflexivity).
  destruct (on_site links_scoped_to_seed Demo.scrape_website
              demo_list_of_set_perm 10 2 true true Demo.seed_url Demo.head1
              Demo.url_b [Demo.url_c] Demo.reported1 Demo.page_b [Demo.url_d]
              demo_head1 eq_refl demo_scraping_b He)
    as (seed_domain & _ & _ & _ & Hsdo).
  destruct (Hsdo eq_refl) as (_ & Hnet & Hauth).
  exists [Demo.url_d]. split; [exact He|].
  split; [right; left|]. split; [|exact Hnet].
  intros Hin%Hnet. vm_compute in Hin. discriminate.
Defined.



Lemma bfs_order_witness :
  ∃ fuel cf,
    Demo.session Demo.scrape_website fuel (init 10 2 true true) Demo.seed_url
      = Some (Returned cf)
    ∧ fetched_urls (trace cf)
      = [Demo.seed_url; Demo.url_b; Demo.url_c; Demo.url_d]
    ∧ (scraped_content cf).*1
      = [Demo.seed_url; Demo.url_b; Demo.url_c; Demo.url_d].
Proof.
  apply (proj2 (proj2 (on_site bfs_order Demo.scrape_website
           demo_list_of_set_perm 10 2 true true Demo.seed_url))
           Demo.url_b Demo.url_c Demo.url_d
           Demo.page_seed Demo.page_b Demo.page_c Demo.page_d).
  - apply (bool_decide_unpack _). vm_compute. exact I.
  - lia.
  - intros t. reflexivity.
  - discriminate.
  - intros t. reflexivity.
  - discriminate.
  - intros t. reflexivity.
  - discriminate.
  - intros t. reflexivity.
  - discriminate.
  - vm_compute. reflexivity.
  - vm_compute. reflexivity.
  - vm_compute. reflexivity.
  - vm_compute. reflexivity.
Defined.

(** The claim of C7 as the specification words it fails for a budget of
    zero pages: the crawler is made, and a session on it runs and
    returns. *)
Lemma invalid_config_accepted :
  (max_pages (init 0 2 true false) < 1)%Z
  ∧ ∃ cf,
      Demo.session Demo.scrape_website 0 (init 0 2 true false) Demo.seed_url
        = Some (Returned cf)
      ∧ scraped_content cf = [].
Proof.
  split; [simpl; lia|].
  eexists. split; [vm_compute; reflexivity|reflexivity].
Qed.

Lemma small_budget_session_witness :
  (0 < 1)%Z
  ∧ ∃ o,
      (∀ fuel,
          Demo.session Demo.scrape_website fuel (init 0 2 true false)
            Demo.seed_url = Some o)
      ∧ scraped_content (final o) = []
      ∧ ∃ cf, o = Returned cf.
Proof.
  split; [lia|].
  destruct (on_site small_budget_session Demo.scrape_website 0 2 true false
              Demo.seed_url ltac:(lia)) as (o & Hrun & _ & _ & Hs & Hret).
  exists o. split; [exact Hrun|]. split; [exact Hs|].
  apply Hret; [exact demo_parsed|by left].
Defined.

Lemma empty_page_is_failure_witness :
  ∃ c',
    Demo.turn Demo.scrape_empty Demo.head0 = Returned c'
    ∧ Demo.turn Demo.scrape_down Demo.head0 = Returned c'
    ∧ visited_urls c' = visited_urls Demo.head0.
Proof.
  destruct (on_site empty_page_is_failure Demo.scrape_empty Demo.scrape_down
              Demo.head0 Demo.seed_url [] Demo.reported0)
    as (c' & He & Hd & Hv & _).
  - reflexivity.
  - reflexivity.
  - exact (not_elem_of_empty (C:=gset string) Demo.seed_url).
  - reflexivity.
  - reflexivity.
  - reflexivity.
  - exists c'. repeat split; assumption.
Defined.

Lemma offer_idempotent_witness :
  NoDup (url_queue Demo.head0)
  ∧ NoDup (url_queue (offer (offer (Demo.head0, 0) Demo.url_b) Demo.url_b).1)
  ∧ offer (offer (Demo.head0, 0) Demo.url_b) Demo.url_b
    = offer (Demo.head0, 0) Demo.url_b.
Proof.
  assert (NoDup (url_queue Demo.head0)) as Hnd
    by (apply (bool_decide_unpack _); vm_compute; exact I).
  destruct (offer_idempotent Demo.head0 0 Demo.url_b)
    as (_ & _ & Heq & _ & _ & _ & Hq).
  split; [exact Hnd|]. split; [exact (Hq Hnd)|exact Heq].
Defined.

Lemma is_valid_url_pure_witness :
  same_domain_only (init 10 2 true false) = true
  ∧ is_valid_url Demo.checknetloc Demo.unicode_lower (init 10 2 true false)
      "https://x.com/login" "x.com" = inr false
  ∧ is_valid_url Demo.checknetloc Demo.unicode_lower (init 10 2 true false)
      "https://x.com/about" "x.com" = inr true.
Proof.
  split; [reflexivity|].
  destruct (proj2 (is_valid_url_pure Demo.checknetloc Demo.unicode_lower)
              (init 10 2 true false) eq_refl)
    as (H1 & H2 & _).
  split; assumption.
Defined.

(** ** Sessions that a URL breaks *)

(** C6, on the site when [/b] is down and [/c] holds a link that
    [urljoin] rejects.  The fetch of [/b] fails and the loop goes on to
    [/c]; there [extract_links] raises [ValueError], which leaves
    [crawl_website]: the front page and [/c] are stored in the crawler,
    and no mapping is returned. *)
Theorem failed_fetch_then_unparsed_link :
  failed (Demo.scrape_broken [] Demo.url_b) = true
  ∧ ∃ cr,
      (∀ fuel,
          Demo.session Demo.scrape_broken (3 + fuel) (init 10 2 true true)
            Demo.seed_url = Some (Raised ValueError cr))
      ∧ fetched_urls (trace cr) = [Demo.seed_url; Demo.url_b; Demo.url_c]
      ∧ (scraped_content cr).*1 = [Demo.seed_url; Demo.url_c]
      ∧ visited_urls cr = {[ Demo.seed_url; Demo.url_c ]}.
Proof.
  split; [reflexivity|].
  eexists. split; [intros fuel; vm_compute; reflexivity|].
  split; [reflexivity|]. split; [reflexivity|].
  apply (bool_decide_unpack _). vm_compute. exact I.
Qed.

(** C9, on a start URL that [urlparse] rejects.  [crawl_website] assigns
    the queue, raises [ValueError] in [get_domain(start_url)] and never
    reaches [found_links.add(start_url)]: the start URL is in the queue
    and not among the found links, at a point of the session and in the
    crawler that the session leaves. *)
Theorem start_url_queued_unfound :
  (∀ fuel,
      Demo.session Demo.scrape_website fuel (init 10 2 true true)
        Demo.url_bad
      = Some (Raised ValueError (queued (init 10 2 true true) Demo.url_bad)))
  ∧ on_site point Demo.scrape_website 10 2 true true Demo.url_bad
      (queued (init 10 2 true true) Demo.url_bad)
  ∧ Demo.url_bad ∈ url_queue (queued (init 10 2 true true) Demo.url_bad)
  ∧ Demo.url_bad ∉ found_links (queued (init 10 2 true true) Demo.url_bad).
Proof.
  split; [intros fuel; reflexivity|]. split; [apply pt_queued|].
  split; [by left|].
  exact (not_elem_of_empty (C:=gset string) Demo.url_bad).
Qed.

(** ** The further theorems on the small site *)

Lemma crawled_run :
  Demo.session Demo.scrape_website 10 (init 10 2 true true) Demo.seed_url
  = Some (Returned Crawled.crawler).
Proof. vm_compute. reflexivity. Qed.


Lemma no_url_fetched_twice_witness :
  NoDup (fetched_urls (trace Crawled.crawler) ++ url_queue Crawled.crawler).
Proof.
  exact (on_site no_url_fetched_twice Demo.scrape_website 10 10 2 true true
           Demo.seed_url _ crawled_run).
Defined.

Lemma stored_pages_were_fetched_witness :
  (scraped_content Crawled.crawler).*1
    `sublist_of` fetched_urls (trace Crawled.crawler).
Proof.
  exact (proj1 (on_site stored_pages_were_fetched Demo.scrape_website 10 10 2
                  true true Demo.seed_url _ crawled_run)).
Defined.



Lemma progress_reports_consistent_witness :
  (0 ≤ 10)%Z ∧ Forall (report_ok 10) (trace Crawled.crawler).
Proof.
  split; [lia|].
  exact (on_site progress_reports_consistent Demo.scrape_website 10 10 2 true
           true Demo.seed_url _ ltac:(lia) crawled_run).
Defined.

Lemma recrawl_fetches_nothing_witness :
  ∃ c',
    Demo.session Demo.scrape_website 1 Crawled.crawler Demo.seed_url
    = Some (Returned c')
    ∧ scraped_content c' = scraped_content Crawled.crawler
    ∧ url_queue c' = []
    ∧ fetched_urls (trace c') = fetched_urls (trace Crawled.crawler).
Proof.
  destruct (on_site recrawl_fetches_nothing Demo.scrape_website
              Crawled.crawler Demo.seed_url 0)
    as (c' & Hrun & _ & Hs & _ & Hq & Hf & _).
  - exact demo_parsed.
  - left. apply (bool_decide_unpack _). vm_compute. exact I.
  - right. intros H. vm_compute in H. discriminate.
  - exists c'. repeat split; assumption.
Defined.

Lemma stats_after_session_witness :
  (1 ≤ 10)%Z
  ∧ ∃ st,
      get_crawl_stats Demo.list_of_set Crawled.crawler = inr st
      ∧ pages_scraped st = length (scraped_content Crawled.crawler)
      ∧ cs_visited_urls st ≡ₚ (scraped_content Crawled.crawler).*1.
Proof.
  split; [lia|].
  destruct (on_site stats_after_session Demo.scrape_website
              demo_list_of_set_perm 10 10 2 true true Demo.seed_url _
              ltac:(lia) demo_parsed crawled_run)
    as (st & Hst & Hp & _ & _ & _ & Hv & _).
  exists st. repeat split; assumption.
Defined.

Lemma stats_divide_by_zero_witness :
  ∃ cf,
    Demo.session Demo.scrape_website 10 (init 0 2 true false) Demo.seed_url
    = Some (Returned cf)
    ∧ get_crawl_stats Demo.list_of_set cf = inl ZeroDivisionError.
Proof.
  destruct (on_site stats_divide_by_zero Demo.scrape_website 2 true
              Demo.seed_url demo_parsed) as (cf & Hrun & _ & Hst).
  exists cf. split; [exact (Hrun 10%nat)|exact Hst].
Defined.

Lemma clean_text_lines_witness :
  splitlines Latin1.is_break Latin1.is_cr Latin1.is_lf
    (clean_text Latin1.is_space Latin1.is_break Latin1.is_cr Latin1.is_lf
       Latin1.lf Crawled.sample_text)
  = map (strip Latin1.is_space)
      (filter (λ line, nonempty (strip Latin1.is_space line))
         (splitlines Latin1.is_break Latin1.is_cr Latin1.is_lf
            Crawled.sample_text)).
Proof.
  exact (proj1 (clean_text_lines Latin1.is_space Latin1.is_break
                  Latin1.is_cr Latin1.is_lf Latin1.lf eq_refl eq_refl
                  Crawled.sample_text)).
Defined.

Lemma clean_text_idempotent_witness :
  clean_text Latin1.is_space Latin1.is_break Latin1.is_cr Latin1.is_lf
    Latin1.lf
    (clean_text Latin1.is_space Latin1.is_break Latin1.is_cr Latin1.is_lf
       Latin1.lf Crawled.sample_text)
  = clean_text Latin1.is_space Latin1.is_break Latin1.is_cr Latin1.is_lf
      Latin1.lf Crawled.sample_text.
Proof.
  exact (clean_text_idempotent Latin1.is_space Latin1.is_break Latin1.is_cr
           Latin1.is_lf Latin1.lf eq_refl eq_refl Crawled.sample_text).
Defined.

Lemma split_dom_content_concat_witness :
  (0 < 3)%Z
  ∧ ∃ pieces,
      split_dom_content Crawled.sample_text 3 = Some pieces
      ∧ concat pieces = Crawled.sample_text.
Proof.
  split; [lia|].
  exact (split_dom_content_concat Crawled.sample_text 3 ltac:(lia)).
Defined.

Lemma split_dom_content_sizes_witness :
  (0 < 3)%Z
  ∧ ∃ pieces,
      split_dom_content Crawled.sample_text 3 = Some pieces
      ∧ (Crawled.sample_text = [] → pieces = []).
Proof.
  split; [lia|].
  destruct (split_dom_content_sizes Crawled.sample_text 3 ltac:(lia))
    as (pieces & E & _ & H).
  exists pieces. split; assumption.
Defined.

Lemma split_dom_content_nonpositive_witness :
  (-2 ≤ 0)%Z ∧ split_dom_content Crawled.sample_text (-2) = Some [].
Proof.
  split; [lia|].
  exact (split_dom_content_nonpositive Crawled.sample_text (-2) ltac:(lia)).
Defined.

Lemma fetches_within_scope_witness :
  (1 ≤ 10)%Z
  ∧ (∀ u, u ∈ fetched_urls (trace Crawled.crawler) →
          get_domain Demo.checknetloc u
          = get_domain Demo.checknetloc Demo.seed_url)
  ∧ ∃ rest, fetched_urls (trace Crawled.crawler) = Demo.seed_url :: rest.
Proof.
  split; [lia|].
  destruct (on_site fetches_within_scope Demo.scrape_website
              demo_list_of_set_perm 10 10 2 true true Demo.seed_url _
              crawled_run)
    as (_ & Hdom & Hfirst).
  split; [exact (Hdom eq_refl)|exact (Hfirst ltac:(lia) demo_parsed)].
Defined.

Lemma discovered_superset_witness :
  visited_urls Crawled.crawler ⊆ found_links Crawled.crawler
  ∧ ∀ u, u ∈ url_queue Crawled.crawler → u ∈ found_links Crawled.crawler.
Proof.
  apply (on_site discovered_superset Demo.scrape_website 10 2 true true
           Demo.seed_url).
  - apply (pt_left _ _ _ _ _ _ _ _ _ _ _ 10 (Returned Crawled.crawler)).
    exact crawled_run.
  - intros H. apply (f_equal url_queue) in H. vm_compute in H.
    discriminate.
Defined.


